(** * SHT31 temperature / humidity driver (src/drivers/sht31.hpp)

    A shallow embedding of the class [drivers::sht31] and the properties its
    specification states about it.

    Conventions of the embedding.
    - C integers are [Z]; a conversion to an unsigned type of width [w] is
      written out as a reduction modulo [2^w].
    - The driver is compiled for mbed targets (ARM EABI), where plain [char]
      is an unsigned 8-bit type: a [char] cell holds a value in [0, 255] and
      promotes to that [int].
    - [double] is IEEE 754 binary64, i.e. Rocq's primitive [float].
    - The I2C bus, [wait_ms] and [hard_fault] are external collaborators: the
      bus is a queue of responses the device will give, and everything the
      driver does to the outside is recorded in a chronological trace. *)

From Stdlib Require Import String ZArith Bool Lia Floats QArith Qabs List.
From Stdlib.Strings Require Import Byte.
Import ListNotations.

Local Open Scope Z_scope.

(** ** Macros of the header *)

Definition SHT31_DEFAULT_ADDR         : Z := 0x44.
Definition SHT31_MEAS_HIGHREP_STRETCH : Z := 0x2C06.
Definition SHT31_MEAS_MEDREP_STRETCH  : Z := 0x2C0D.
Definition SHT31_MEAS_LOWREP_STRETCH  : Z := 0x2C10.
Definition SHT31_MEAS_HIGHREP         : Z := 0x2400.
Definition SHT31_MEAS_MEDREP          : Z := 0x240B.
Definition SHT31_MEAS_LOWREP          : Z := 0x2416.
Definition SHT31_READSTATUS           : Z := 0xF32D.
Definition SHT31_CLEARSTATUS          : Z := 0x3041.
Definition SHT31_SOFTRESET            : Z := 0x30A2.
Definition SHT31_HEATEREN             : Z := 0x306D.
Definition SHT31_HEATERDIS            : Z := 0x3066.

(** ** C integer types *)

(** Conversion of an [int] to [uint8_t] / [char] and to [uint16_t]. *)
Definition uint8_t (z : Z) : Z := z mod 2 ^ 8.
Definition uint16_t (z : Z) : Z := z mod 2 ^ 16.

(** The value of a byte that sits in a [char] (unsigned on the target). *)
Definition char_to_int (b : byte) : Z := Z.of_N (Byte.to_N b).

(** A memory cell of a local buffer: [None] until something is stored in it
    (a local array without initialiser holds indeterminate values). *)
Definition cell : Type := option Z.

Definition cells_of_bytes (bs : list byte) : list cell :=
  map (fun b => Some (char_to_int b)) bs.

(** ** The checksum: [crc8] *)

Definition POLYNOMIAL : Z := 0x31.

(** The inner loop [for (int i = 8; i; --i)]: [i] rounds on the register. The
    conditional expression is computed on [int] and stored back into the
    [uint8_t] register. *)
Fixpoint crc8_bits (i : nat) (crc : Z) : Z :=
  match i with
  | O => crc
  | S i' =>
      crc8_bits i'
        (uint8_t (if Z.land crc 0x80 =? 0
                  then Z.shiftl crc 1
                  else Z.lxor (Z.shiftl crc 1) POLYNOMIAL))
  end.

(** The outer loop [for (int j = len; j; --j)], with [data] the cells from the
    pointer on. Reading a cell that is past the buffer or was never written
    is undefined: [None]. *)
Fixpoint crc8_loop (j : nat) (data : list cell) (crc : Z) : option Z :=
  match j with
  | O => Some crc
  | S j' =>
      match data with
      | Some d :: data' => crc8_loop j' data' (crc8_bits 8 (uint8_t (Z.lxor crc d)))
      | _ => None
      end
  end.

(** [uint8_t crc8(const uint8_t *data, int len)]. A negative [len] never
    reaches zero by decrements before the pointer has left every buffer. *)
Definition crc8 (data : list cell) (len : Z) : option Z :=
  if len <? 0 then None else crc8_loop (Z.to_nat len) data 0xFF.

(** *** The checksum as the specification words it *)

Module Spec.

(** The register truncated to 8 bits. *)
Definition trunc8 (r : Z) : Z := Z.land r 0xFF.

(** One iteration: "if the high bit of the register is set, shift left and
    XOR with the polynomial; else just shift left". *)
Definition shift_step (r : Z) : Z :=
  if Z.testbit r 7
  then trunc8 (Z.lxor (Z.shiftl r 1) 0x31)
  else trunc8 (Z.shiftl r 1).

(** "For each input byte: XOR into the register, then for 8 iterations
    ..." *)
Definition byte_step (r : Z) (b : byte) : Z :=
  Nat.iter 8 shift_step (Z.lxor r (char_to_int b)).

(** Initial register value 0xFF, no final XOR, no reflection. *)
Definition crc8 (data : list byte) : Z := fold_left byte_step data 0xFF.

(** The same checksum as a remainder of polynomials over GF(2), a
    polynomial being the [Z] whose bit [k] is the coefficient of [x^k]. The
    generator is [x^8 + x^5 + x^4 + 1]. *)
Definition generator : Z := 0x131.

(** One step of the long division: cancel the coefficient of [x^(i + 8)]
    with the generator shifted to it. *)
Definition reduce_at (i : nat) (a : Z) : Z :=
  if Z.testbit a (Z.of_nat i + 8)
  then Z.lxor a (Z.shiftl generator (Z.of_nat i))
  else a.

(** [poly_mod n a] is the remainder modulo the generator of a polynomial [a]
    of degree below [n + 8]. *)
Fixpoint poly_mod (n : nat) (a : Z) : Z :=
  match n with
  | O => a
  | S n' => poly_mod n' (reduce_at n' a)
  end.

(** The message as a polynomial: the first byte holds the highest
    coefficients, and in a byte the most significant bit comes first. *)
Fixpoint message (data : list byte) : Z :=
  match data with
  | [] => 0
  | b :: data' =>
      Z.lxor (Z.shiftl (char_to_int b) (8 * Z.of_nat (length data'))) (message data')
  end.

(** The CRC of [n] bytes with initial register 0xFF and no final XOR: the
    remainder of [0xFF * x^(8n) + message * x^8]. *)
Definition remainder (data : list byte) : Z :=
  let n := length data in
  poly_mod (8 * n)
    (Z.lxor (Z.shiftl 0xFF (8 * Z.of_nat n)) (Z.shiftl (message data) 8)).

(** [k] steps of the division, at positions [n + k - 1] down to [n]. *)
Fixpoint poly_steps (k n : nat) (a : Z) : Z :=
  match k with
  | O => a
  | S k' => poly_steps k' n (reduce_at (n + k') a)
  end.

End Spec.

(** ** The outside world *)

(** [PinName] is an enumeration of the platform; only its identity matters. *)
Definition PinName : Type := Z.

(** What the driver does to its collaborators, in the order it does it. *)
Inductive event : Type :=
| I2C_write (address : Z) (data : list Z)   (* [_i2c.write(address, data, n)] *)
| I2C_read (address : Z) (length : nat)     (* [_i2c.read(address, buf, n)]   *)
| Wait_ms (ms : Z)                          (* [wait_ms(ms)]                  *)
| Hard_fault (msg : string).                (* [hard_fault(msg)]              *)

(** The device side of the bus: the response it gives to each coming read
    transaction, and the trace of what happened so far. *)
Record world : Type := World {
  responses : list (list byte);
  trace : list event
}.

(** The data members of [class sht31]. [_i2c] is the handle built from the two
    pins; the two doubles have no initialiser and are [None] until assigned. *)
Record sht31 : Type := Sht31 {
  _i2c : PinName * PinName;
  _i2c_address : Z;
  _humidity : option float;
  _temperature : option float
}.

Record state : Type := State {
  env : world;
  this : sht31
}.

Definition emit (e : event) (s : state) : state :=
  {| env := {| responses := responses (env s); trace := trace (env s) ++ [e] |};
     this := this s |}.

Definition next_response (s : state) : list byte * state :=
  match responses (env s) with
  | [] => ([], s)
  | r :: rest =>
      (r, {| env := {| responses := rest; trace := trace (env s) |}; this := this s |})
  end.

Definition with_temperature (t : float) (s : state) : state :=
  {| env := env s;
     this := {| _i2c := _i2c (this s); _i2c_address := _i2c_address (this s);
                _humidity := _humidity (this s); _temperature := Some t |} |}.

Definition with_humidity (h : float) (s : state) : state :=
  {| env := env s;
     this := {| _i2c := _i2c (this s); _i2c_address := _i2c_address (this s);
                _humidity := Some h; _temperature := _temperature (this s) |} |}.

(** ** Computations of the driver *)

(** How a call ends: it returns a value, it is stopped by [hard_fault], or it
    has undefined behaviour. *)
Inductive result (A : Type) : Type :=
| Ret (a : A)
| Halt (msg : string)
| Undef.
Arguments Ret {A} a.
Arguments Halt {A} msg.
Arguments Undef {A}.

Definition M (A : Type) : Type := state -> result A * state.

Definition ret {A : Type} (a : A) : M A := fun s => (Ret a, s).

Definition bind {A B : Type} (m : M A) (k : A -> M B) : M B :=
  fun s =>
    match m s with
    | (Ret a, s') => k a s'
    | (Halt msg, s') => (Halt msg, s')
    | (Undef, s') => (Undef, s')
    end.

Declare Scope driver_scope.
Delimit Scope driver_scope with driver.
Notation "x <- c1 ;; c2" := (bind c1 (fun x => c2))
  (at level 61, c1 at next level, right associativity) : driver_scope.
Notation "c1 ;; c2" := (bind c1 (fun _ => c2))
  (at level 61, right associativity) : driver_scope.
Local Open Scope driver_scope.

Definition undefined {A : Type} : M A := fun s => (Undef, s).

(** A value that exists only when the behaviour is defined. *)
Definition defined {A : Type} (o : option A) : M A :=
  match o with
  | Some a => ret a
  | None => undefined
  end.

(** *** Collaborators *)

(** A pointer to a [char] buffer: either it was never given a value, or it
    designates cells. *)
Inductive pointer : Type :=
| Indeterminate
| Buffer (cells : list cell).

(** The bytes received replace the first cells of the buffer. *)
Fixpoint store (bs : list byte) (cells : list cell) : list cell :=
  match bs, cells with
  | b :: bs', _ :: cells' => Some (char_to_int b) :: store bs' cells'
  | _, _ => cells
  end.

(** Modelled from the spec: [I2C::write(address, data, length)] belongs to
    the mbed library; the bus transport's [write(address, bytes)] sends the
    bytes to the device. *)
Definition i2c_write (address : Z) (data : list Z) : M unit :=
  fun s => (Ret tt, emit (I2C_write address data) s).

(** Modelled from the spec: [I2C::read(address, data, length)] belongs to
    the mbed library; the bus transport's [read(address, length) -> bytes]
    delivers the device's next response. At most [length] bytes of it land in
    the buffer [data] points to, and the buffer after the transaction is
    returned. Receiving through a pointer without a value, or into a buffer
    shorter than [length], is undefined. *)
Definition i2c_read (address : Z) (data : pointer) (length : nat) : M (list cell) :=
  fun s =>
    match data with
    | Indeterminate => (Undef, s)
    | Buffer cells =>
        if (length <=? List.length cells)%nat
        then let (r, s') := next_response s in
             (Ret (store (firstn length r) cells), emit (I2C_read address length) s')
        else (Undef, s)
    end.

(** Modelled from the spec: [wait_ms(ms)] is the platform's blocking delay
    [wait(milliseconds)]. *)
Definition wait_ms (ms : Z) : M unit :=
  fun s => (Ret tt, emit (Wait_ms ms) s).

(** Modelled from the spec: [cadmium::embedded::embedded_error::hard_fault]
    is declared in cadmium/embedded/embedded_error.hpp, outside this
    repository. The fatal-error reporter "terminates further execution; does
    not return": the message is delivered and the computation stops. *)
Definition hard_fault {A : Type} (msg : string) : M A :=
  fun s => (Halt msg, emit (Hard_fault msg) s).

(** *** Private methods *)

Definition get_i2c_address : M Z := fun s => (Ret (_i2c_address (this s)), s).

(** [buf[i]] as an rvalue. *)
Definition load (buf : list cell) (i : nat) : M Z :=
  defined (nth i buf None).

(** [void write_command(uint16_t cmd)]. *)
Definition write_command (cmd : Z) : M unit :=
  let cmd := uint16_t cmd in
  let buf0 := uint8_t (Z.shiftr cmd 8) in
  let buf1 := uint8_t (Z.land cmd 0xFF) in
  address <- get_i2c_address ;;
  i2c_write address [buf0; buf1].

(** [void reset(void)]. *)
Definition reset : M unit :=
  write_command SHT31_SOFTRESET ;;
  wait_ms 10.

(** The body of [read_status] for a given value of its local [char *val]. *)
Definition read_status_from (val : pointer) : M Z :=
  write_command SHT31_READSTATUS ;;
  address <- get_i2c_address ;;
  (* Read MSB *)
  mem <- i2c_read address val 1 ;;
  msb <- load mem 0 ;;
  let stat := uint16_t (Z.shiftl msb 8) in
  (* Read LSB *)
  mem <- i2c_read address (Buffer mem) 1 ;;
  lsb <- load mem 0 ;;
  let stat := uint16_t (Z.lor stat lsb) in
  ret stat.

(** [uint16_t read_status(void)]: [char *val;] is declared without a value
    and never assigned. *)
Definition read_status : M Z := read_status_from Indeterminate.

(** [(double) w] for a non-negative integer. *)
Definition double_of_int (w : Z) : float := PrimFloat.of_uint63 (Uint63.of_Z w).

(** [-45 + ((((double) temperature_word) * 175) / 0xFFFF)]. *)
Definition temperature_of_word (temperature_word : Z) : float :=
  (-45 + ((double_of_int temperature_word * 175) / double_of_int 0xFFFF))%float.

(** [(((double) humidity_word) * 100) / 0xFFFF]. *)
Definition humidity_of_word (humidity_word : Z) : float :=
  ((double_of_int humidity_word * 100) / double_of_int 0xFFFF)%float.

(** [bool read_temperature_humidity(void)]. *)
Definition read_temperature_humidity : M bool :=
  write_command SHT31_MEAS_HIGHREP ;;
  wait_ms 50 ;;
  (* Read in temperature, humidity, and both CRCs *)
  address <- get_i2c_address ;;
  readbuffer <- i2c_read address (Buffer (repeat None 6)) 6 ;;
  (* copy temperature bytes to uint16_t *)
  b0 <- load readbuffer 0 ;;
  b1 <- load readbuffer 1 ;;
  let temperature_word := uint16_t (Z.lor (Z.shiftl b0 8) b1) in
  (* Check Temperature CRC *)
  b2 <- load readbuffer 2 ;;
  crc <- defined (crc8 readbuffer 2) ;;
  if negb (b2 =? crc) then ret false else
  (* copy humidity bytes to uint16_t *)
  b3 <- load readbuffer 3 ;;
  b4 <- load readbuffer 4 ;;
  let humidity_word := uint16_t (Z.lor (Z.shiftl b3 8) b4) in
  (* Check Humidity CRC *)
  b5 <- load readbuffer 5 ;;
  crc <- defined (crc8 (skipn 3 readbuffer) 2) ;;
  if negb (b5 =? crc) then ret false else
  (* Calculate and save real temperature value *)
  (fun s => (Ret tt, with_temperature (temperature_of_word temperature_word) s)) ;;
  (* Calculate and save real humidity value *)
  (fun s => (Ret tt, with_humidity (humidity_of_word humidity_word) s)) ;;
  ret true.

(** *** Public interface *)

(** [sht31(PinName sda, PinName scl) : _i2c(sda, scl)]: the object starts
    with its bus handle and, by the first statement of the body, its address;
    then [reset()] and [read_status()], whose value is dropped. *)
Definition sht31_new (sda scl : PinName) (w : world) : result unit * state :=
  (reset ;;
   _ <- read_status ;;
   ret tt)
    {| env := w;
       this := {| _i2c := (sda, scl);
                  _i2c_address := Z.shiftl SHT31_DEFAULT_ADDR 1;
                  _humidity := None;
                  _temperature := None |} |}.

(** [double read_temperature(void)]. *)
Definition read_temperature : M float :=
  ok <- read_temperature_humidity ;;
  (if negb ok then hard_fault "SHT31 TEMPERATURE CRC FAIL" else ret tt) ;;
  fun s => defined (_temperature (this s)) s.

(** [double read_humidity(void)]. *)
Definition read_humidity : M float :=
  ok <- read_temperature_humidity ;;
  (if negb ok then hard_fault "SHT31 HUMIDITY CRC FAIL" else ret tt) ;;
  fun s => defined (_humidity (this s)) s.

(** *** Clients of the driver *)

Inductive call : Type :=
| Call_read_temperature
| Call_read_humidity.

Definition perform (c : call) : M float :=
  match c with
  | Call_read_temperature => read_temperature
  | Call_read_humidity => read_humidity
  end.

(** A sequence of accessor calls on a driver; the values returned are
    collected. *)
Fixpoint perform_all (cs : list call) : M (list float) :=
  match cs with
  | [] => ret []
  | c :: cs' =>
      v <- perform c ;;
      vs <- perform_all cs' ;;
      ret (v :: vs)
  end.

(** Construction followed by a sequence of accessor calls. *)
Definition session (sda scl : PinName) (cs : list call) (w : world)
  : result (list float) * state :=
  match sht31_new sda scl w with
  | (Ret _, s) => perform_all cs s
  | (Halt msg, s) => (Halt msg, s)
  | (Undef, s) => (Undef, s)
  end.

(** ** Vocabulary of the specification *)

(** *** Bytes, words and responses *)

Definition byte_of_Z (z : Z) : byte :=
  match Byte.of_N (Z.to_N (z mod 256)) with
  | Some b => b
  | None => x00
  end.

(** Bit [k] of a byte inverted. *)
Definition flip_bit (k : nat) (b : byte) : byte :=
  byte_of_Z (Z.lxor (char_to_int b) (Z.shiftl 1 (Z.of_nat k))).

(** The 16-bit word whose most significant byte comes first. *)
Definition big_endian_word (msb lsb : byte) : Z :=
  256 * char_to_int msb + char_to_int lsb.

(** The synthetic response [tempMSB, tempLSB, crc(temp), humMSB, humLSB,
    crc(hum)] for a pair of words. *)
Definition frame (temperature_word humidity_word : Z) : list byte :=
  let t1 := byte_of_Z (temperature_word / 256) in
  let t0 := byte_of_Z temperature_word in
  let h1 := byte_of_Z (humidity_word / 256) in
  let h0 := byte_of_Z humidity_word in
  [t1; t0; byte_of_Z (Spec.crc8 [t1; t0]); h1; h0; byte_of_Z (Spec.crc8 [h1; h0])].

(** The checksum byte [crc] received after the word [msb], [lsb] is the
    [crc8] of that word, as the source computes it. *)
Definition crc_matches (msb lsb crc : byte) : Prop :=
  crc8 (cells_of_bytes [msb; lsb]) 2 = Some (char_to_int crc).

(** The [n] integers from [from] on, and with them every 16-bit word. *)
Fixpoint zrange (n : nat) (from : Z) : list Z :=
  match n with
  | O => []
  | S n' => from :: zrange n' (from + 1)
  end.

Definition all_words : list Z := zrange (Nat.pow 2 16) 0.

(** *** Conversion formulas *)

(** The conversion formulas of the specification, in exact arithmetic. *)
Definition temperature_C (word : Z) : Q :=
  (-45 + 175 * inject_Z word / 65535)%Q.

Definition humidity_pct (word : Z) : Q :=
  (100 * inject_Z word / 65535)%Q.

(** The rational number a finite double stands for. *)
Definition Q_of_double (f : float) : option Q :=
  match Prim2SF f with
  | S754_zero _ => Some 0%Q
  | S754_finite s m e =>
      Some (inject_Z (if s then Z.neg m else Z.pos m) * Qpower 2 e)%Q
  | _ => None
  end.

(** [f] is a finite double whose value is within [eps] of the rational [q]. *)
Definition within (eps : Q) (f : float) (q : Q) : Prop :=
  exists x : Q, Q_of_double f = Some x /\ (Qabs (x - q) <= eps)%Q.

(** The same, decided. *)
Definition close_to (eps : Q) (f : float) (q : Q) : bool :=
  match Q_of_double f with
  | Some x => Qle_bool (Qabs (x - q)) eps
  | None => false
  end.

(** The rounding allowed to a conversion: 2^-46, about 1.4e-14. *)
Definition tolerance : Q := Qpower 2 (-46).

(** A value quoted to two decimals, such as the "approximately 20.66" of the
    end-to-end scenario: [f] rounds to [decimal]. *)
Definition approximately (decimal : Q) (f : float) : Prop :=
  within (5 / 1000) f decimal.

(** *** Commands on the wire *)

(** A 16-bit opcode as two bytes, most significant first. *)
Definition wire_bytes (opcode : Z) : list Z := [opcode / 256; opcode mod 256].

(** The commands the specification lists. *)
Definition listed_opcodes : list Z :=
  [SHT31_SOFTRESET; SHT31_READSTATUS; SHT31_MEAS_HIGHREP].

Definition list_Z_eqb (l1 l2 : list Z) : bool :=
  if list_eq_dec Z.eq_dec l1 l2 then true else false.

(** An event of the trace is acceptable when, if it is a bus write, it goes
    to address 0x44 shifted into the 8-bit framing and carries one of the
    listed opcodes, most significant byte first. *)
Definition listed_write (e : event) : bool :=
  match e with
  | I2C_write address data =>
      (address =? Z.shiftl 0x44 1)
      && existsb (fun opcode => list_Z_eqb data (wire_bytes opcode)) listed_opcodes
  | _ => true
  end.

(** The opcodes written on the bus, in order, for writes of two bytes. *)
Fixpoint opcodes_written (tr : list event) : list Z :=
  match tr with
  | [] => []
  | I2C_write _ [hi; lo] :: tr' => (256 * hi + lo) :: opcodes_written tr'
  | _ :: tr' => opcodes_written tr'
  end.

(** The driver holds its fixed address and every write so far carried a
    listed opcode to that address. *)
Definition well_addressed (s : state) : Prop :=
  _i2c_address (this s) = Z.shiftl 0x44 1
  /\ Forall (fun e => listed_write e = true) (trace (env s)).

(** A computation keeps that invariant however it ends. *)
Definition preserves {A : Type} (m : M A) : Prop :=
  forall s : state, well_addressed s -> well_addressed (snd (m s)).

(** *** States and traces *)

(** A driver with the address construction gives it and nothing cached yet,
    facing a device that will give the responses [rs]. *)
Definition fresh (rs : list (list byte)) : state :=
  {| env := {| responses := rs; trace := [] |};
     this := {| _i2c := (0, 1);
                _i2c_address := Z.shiftl SHT31_DEFAULT_ADDR 1;
                _humidity := None;
                _temperature := None |} |}.

(** Both converted values stored. *)
Definition committed (t h : float) (s : state) : state :=
  with_humidity h (with_temperature t s).

(** Such a driver that already caches a temperature and a humidity. *)
Definition holding (t h : float) (rs : list (list byte)) : state :=
  committed t h (fresh rs).

(** What the constructor does to the outside. *)
Definition construction_io : list event :=
  [I2C_write 0x88 [0x30; 0xA2]; Wait_ms 10; I2C_write 0x88 [0xF3; 0x2D]].

(** The three events of one acquisition. *)
Definition measurement_io (address : Z) : list event :=
  [I2C_write address [0x24; 0x00]; Wait_ms 50; I2C_read address 6].

(** The state once a response has been read: the bus moved on to the
    responses [rest] and the trace grew by the three events. *)
Definition measured (s : state) (rest : list (list byte)) : state :=
  {| env := {| responses := rest;
               trace := trace (env s) ++ measurement_io (_i2c_address (this s)) |};
     this := this s |}.

(** The two messages handed to [hard_fault]. *)
Definition temperature_fault : string := "SHT31 TEMPERATURE CRC FAIL".
Definition humidity_fault : string := "SHT31 HUMIDITY CRC FAIL".

(** *** Sequences of calls *)

(** A six-byte response whose two checksums match. *)
Definition frame_ok (r : list byte) : Prop :=
  match r with
  | [b0; b1; b2; b3; b4; b5] => crc_matches b0 b1 b2 /\ crc_matches b3 b4 b5
  | _ => False
  end.

(** The two readings a response carries. *)
Definition frame_temperature (r : list byte) : float :=
  temperature_of_word (big_endian_word (nth 0 r x00) (nth 1 r x00)).

Definition frame_humidity (r : list byte) : float :=
  humidity_of_word (big_endian_word (nth 3 r x00) (nth 4 r x00)).

(** The reading a call asks for. *)
Definition reading (c : call) (r : list byte) : float :=
  match c with
  | Call_read_temperature => frame_temperature r
  | Call_read_humidity => frame_humidity r
  end.

(** The message a call hands to [hard_fault]. *)
Definition fault_message (c : call) : string :=
  match c with
  | Call_read_temperature => "SHT31 TEMPERATURE CRC FAIL"
  | Call_read_humidity => "SHT31 HUMIDITY CRC FAIL"
  end.

(** The readings of a sequence of calls, each from the response of its turn. *)
Definition readings (cs : list call) (frames : list (list byte)) : list float :=
  map (fun cr => reading (fst cr) (snd cr)) (combine cs frames).

(** The driver after the responses [frames] were acquired one after the
    other: the cache holds the conversions of the last one. *)
Fixpoint acquired (frames rest : list (list byte)) (s : state) : state :=
  match frames with
  | [] => s
  | r :: frames' =>
      acquired frames' rest
        (committed (frame_temperature r) (frame_humidity r)
           (measured s (frames' ++ rest)))
  end.

(** *** Bit errors *)

(** The eight rounds the checksum applies to the register after each byte. *)
Definition rounds (x : Z) : Z := Nat.iter 8 Spec.shift_step x.

(** What the bit errors [e0], [e1] in the two bytes of a word add to its
    checksum. *)
Definition syndrome (e0 e1 : Z) : Z := rounds (Z.lxor (rounds e0) e1).

(** The byte [b] with the bits of the mask [e] inverted. *)
Definition xor_byte (e : Z) (b : byte) : byte :=
  byte_of_Z (Z.lxor (char_to_int b) e).

(** The bit errors of a word and its checksum byte as one 24-bit mask, in the
    order the bits travel. *)
Definition error_mask (e0 e1 e2 : Z) : Z := 65536 * e0 + 256 * e1 + e2.

Fixpoint popcount_pos (p : positive) : Z :=
  match p with
  | xH => 1
  | xO p' => popcount_pos p'
  | xI p' => 1 + popcount_pos p'
  end.

(** The number of bits set. *)
Definition popcount (z : Z) : Z :=
  match z with
  | Zpos p => popcount_pos p
  | _ => 0
  end.

Fixpoint trailing_zeros (p : positive) : Z :=
  match p with
  | xO p' => 1 + trailing_zeros p'
  | _ => 0
  end.

(** The length of the burst: the number of positions from the lowest bit set
    to the highest, both included. *)
Definition span (z : Z) : Z :=
  match z with
  | Zpos p => Z.log2 z - trailing_zeros p + 1
  | _ => 0
  end.

(** *** Values of doubles *)

(** The value of a double, 0 when it has none. *)
Definition double_value (f : float) : Q :=
  match Q_of_double f with
  | Some q => q
  | None => 0%Q
  end.

(** The strict order of rationals, decided. *)
Definition Qlt_bool (a b : Q) : bool :=
  match (a ?= b)%Q with
  | Lt => true
  | _ => false
  end.

(** * Properties *)

(** ** Bytes and bits *)

Lemma char_to_int_range (b : byte) : 0 <= char_to_int b < 256.
Proof.
  unfold char_to_int. pose proof (Byte.to_N_bounded b). lia.
Qed.

Lemma uint8_t_land (z : Z) : uint8_t z = Z.land z 0xFF.
Proof.
  unfold uint8_t. change 0xFF with (Z.ones 8). now rewrite Z.land_ones by lia.
Qed.

Lemma uint8_t_small (z : Z) : 0 <= z < 256 -> uint8_t z = z.
Proof.
  intros Hz. unfold uint8_t. apply Z.mod_small. change (2 ^ 8) with 256. lia.
Qed.

Lemma uint8_t_range (z : Z) : 0 <= uint8_t z < 256.
Proof.
  unfold uint8_t. change 256 with (2 ^ 8). apply Z.mod_pos_bound. lia.
Qed.

(** The test [crc & 0x80] looks at bit 7 and nothing else. *)
Lemma land_0x80 (r : Z) : (Z.land r 0x80 =? 0) = negb (Z.testbit r 7).
Proof.
  assert (Hbits : Z.land r 0x80 = if Z.testbit r 7 then 0x80 else 0).
  { apply Z.bits_inj'. intros n Hn.
    rewrite Z.land_spec. change 0x80 with (2 ^ 7).
    rewrite Z.pow2_bits_eqb by lia.
    destruct (Z.eqb_spec 7 n) as [<- | Hne].
    - destruct (Z.testbit r 7); cbn [andb].
      + rewrite Z.pow2_bits_eqb by lia. now rewrite Z.eqb_refl.
      + now rewrite Z.bits_0.
    - rewrite andb_false_r.
      destruct (Z.testbit r 7).
      + rewrite Z.pow2_bits_eqb by lia. symmetry. now apply Z.eqb_neq.
      + now rewrite Z.bits_0. }
  rewrite Hbits. now destruct (Z.testbit r 7).
Qed.

Lemma land_lxor_distr (a b c : Z) :
  Z.land (Z.lxor a b) c = Z.lxor (Z.land a c) (Z.land b c).
Proof.
  apply Z.bits_inj'. intros n _.
  rewrite Z.land_spec, !Z.lxor_spec, !Z.land_spec.
  now destruct (Z.testbit a n), (Z.testbit b n), (Z.testbit c n).
Qed.

Lemma lxor_byte_range (r d : Z) :
  0 <= r < 256 -> 0 <= d < 256 -> 0 <= Z.lxor r d < 256.
Proof.
  intros Hr Hd.
  rewrite <- (uint8_t_small r Hr), <- (uint8_t_small d Hd), !uint8_t_land.
  rewrite <- land_lxor_distr, <- uint8_t_land.
  apply uint8_t_range.
Qed.

(** ** The checksum *)

Lemma shift_step_source (r : Z) :
  uint8_t (if Z.land r 0x80 =? 0
           then Z.shiftl r 1
           else Z.lxor (Z.shiftl r 1) POLYNOMIAL) = Spec.shift_step r.
Proof.
  unfold Spec.shift_step, Spec.trunc8, POLYNOMIAL.
  rewrite land_0x80, uint8_t_land.
  now destruct (Z.testbit r 7).
Qed.

Lemma crc8_bits_iter (i : nat) (r : Z) :
  crc8_bits i r = Nat.iter i Spec.shift_step r.
Proof.
  revert r. induction i as [| i IH]; intros r.
  - reflexivity.
  - cbn [crc8_bits]. rewrite shift_step_source, IH. symmetry. apply Nat.iter_succ_r.
Qed.

Lemma shift_step_range (r : Z) : 0 <= Spec.shift_step r < 256.
Proof.
  unfold Spec.shift_step, Spec.trunc8.
  destruct (Z.testbit r 7); rewrite <- uint8_t_land; apply uint8_t_range.
Qed.

Lemma byte_step_range (r : Z) (b : byte) : 0 <= Spec.byte_step r b < 256.
Proof.
  unfold Spec.byte_step. cbn [Nat.iter nat_rect]. apply shift_step_range.
Qed.

Lemma spec_crc8_from_range (data : list byte) (r : Z) :
  0 <= r < 256 -> 0 <= fold_left Spec.byte_step data r < 256.
Proof.
  revert r. induction data as [| b data IH]; intros r Hr; cbn [fold_left].
  - exact Hr.
  - apply IH, byte_step_range.
Qed.

Lemma crc8_loop_cons (j : nat) (d : Z) (data : list cell) (r : Z) :
  crc8_loop (S j) (Some d :: data) r
  = crc8_loop j data (crc8_bits 8 (uint8_t (Z.lxor r d))).
Proof.
  unfold crc8_loop at 1; lazy iota beta; fold crc8_loop. reflexivity.
Qed.

Lemma byte_step_source (r : Z) (b : byte) :
  0 <= r < 256 ->
  crc8_bits 8 (uint8_t (Z.lxor r (char_to_int b))) = Spec.byte_step r b.
Proof.
  intros Hr.
  rewrite uint8_t_small by (apply lxor_byte_range; [exact Hr | apply char_to_int_range]).
  apply crc8_bits_iter.
Qed.

(** The loop of the source, started on any register value, folds the
    specification's byte step over the bytes it is given. *)
Lemma crc8_loop_fold (data rest : list byte) (r : Z) :
  0 <= r < 256 ->
  crc8_loop (length data) (cells_of_bytes (data ++ rest)) r
  = Some (fold_left Spec.byte_step data r).
Proof.
  revert r. induction data as [| b data IH]; intros r Hr.
  - reflexivity.
  - change (crc8_loop (S (length data))
              (Some (char_to_int b) :: cells_of_bytes (data ++ rest)) r
            = Some (fold_left Spec.byte_step data (Spec.byte_step r b))).
    rewrite crc8_loop_cons, byte_step_source by exact Hr.
    apply IH, byte_step_range.
Qed.

Lemma crc8_prefix (data rest : list byte) :
  crc8 (cells_of_bytes (data ++ rest)) (Z.of_nat (length data))
  = Some (Spec.crc8 data).
Proof.
  unfold crc8, Spec.crc8.
  destruct (Z.ltb_spec (Z.of_nat (length data)) 0) as [Hneg | _]; [lia |].
  rewrite Nat2Z.id. apply crc8_loop_fold. lia.
Qed.

(** *** Exhaustive checks over 16-bit words *)

Lemma in_zrange (n : nat) (from w : Z) :
  from <= w < from + Z.of_nat n -> In w (zrange n from).
Proof.
  revert from. induction n as [| n IH]; intros from Hw.
  - lia.
  - cbn [zrange In].
    destruct (Z.eq_dec from w) as [-> | Hne]; [now left | right].
    apply IH. lia.
Qed.

Lemma for_all_words (f : Z -> bool) :
  forallb f all_words = true -> forall w, 0 <= w < 65536 -> f w = true.
Proof.
  intros H w Hw. rewrite forallb_forall in H. apply H.
  apply in_zrange. change (Z.of_nat (Nat.pow 2 16)) with 65536. lia.
Qed.

Lemma byte_of_char (b : byte) : byte_of_Z (char_to_int b) = b.
Proof. destruct b; reflexivity. Qed.

Lemma char_of_byte (z : Z) : 0 <= z < 256 -> char_to_int (byte_of_Z z) = z.
Proof.
  intros Hz. unfold byte_of_Z, char_to_int.
  rewrite Z.mod_small by exact Hz.
  destruct (Byte.of_N (Z.to_N z)) as [b |] eqn:Hb.
  - apply Byte.to_of_N in Hb. rewrite Hb. lia.
  - apply Byte.of_N_None_iff in Hb. lia.
Qed.

Lemma big_endian_word_range (msb lsb : byte) :
  0 <= big_endian_word msb lsb < 65536.
Proof.
  unfold big_endian_word.
  pose proof (char_to_int_range msb). pose proof (char_to_int_range lsb). lia.
Qed.

Lemma big_endian_word_msb (msb lsb : byte) :
  byte_of_Z (big_endian_word msb lsb / 256) = msb.
Proof.
  unfold big_endian_word.
  pose proof (char_to_int_range lsb).
  rewrite Z.mul_comm, Z.div_add_l by lia.
  rewrite Z.div_small, Z.add_0_r by lia.
  apply byte_of_char.
Qed.

Lemma big_endian_word_lsb (msb lsb : byte) :
  byte_of_Z (big_endian_word msb lsb) = lsb.
Proof.
  unfold big_endian_word.
  rewrite <- (byte_of_char lsb) at 2.
  unfold byte_of_Z.
  now rewrite Z.add_comm, Z.mul_comm, Z.mod_add by lia.
Qed.

(** *** The checksum is a polynomial remainder *)

Lemma poly_mod_split (k n : nat) (a : Z) :
  Spec.poly_mod (n + k) a = Spec.poly_mod n (Spec.poly_steps k n a).
Proof.
  revert a. induction k as [| k IH]; intros a.
  - now rewrite Nat.add_0_r.
  - rewrite Nat.add_succ_r. cbn [Spec.poly_mod Spec.poly_steps]. apply IH.
Qed.

Lemma poly_steps_0 (k : nat) (a : Z) : Spec.poly_steps k 0 a = Spec.poly_mod k a.
Proof. exact (eq_sym (poly_mod_split k 0 a)). Qed.

Lemma testbit_above (a m k : Z) : 0 <= a < 2 ^ k -> k <= m -> Z.testbit a m = false.
Proof.
  intros [Ha Hlt] Hm.
  destruct (Z.eq_dec a 0) as [-> | Hne]; [apply Z.bits_0 |].
  apply Z.bits_above_log2; [exact Ha |].
  assert (0 <= k) by (destruct (Z.le_gt_cases 0 k); [assumption | rewrite Z.pow_neg_r in Hlt; lia]).
  apply Z.lt_le_trans with k; [| exact Hm].
  apply Z.log2_lt_pow2; lia.
Qed.

Lemma lxor_range (k a b : Z) :
  0 <= k -> 0 <= a < 2 ^ k -> 0 <= b < 2 ^ k -> 0 <= Z.lxor a b < 2 ^ k.
Proof.
  intros Hk Ha Hb.
  rewrite <- (Z.mod_small a (2 ^ k) Ha), <- (Z.mod_small b (2 ^ k) Hb).
  rewrite <- !Z.land_ones by exact Hk.
  rewrite <- land_lxor_distr, Z.land_ones by exact Hk.
  apply Z.mod_pos_bound. lia.
Qed.

(** A division step high in the polynomial does not see what lies below
    it. *)
Lemma reduce_at_shift (i n : nat) (y low : Z) :
  0 <= low < 2 ^ (Z.of_nat n + 8) ->
  Spec.reduce_at (n + i) (Z.lxor (Z.shiftl y (Z.of_nat n)) low)
  = Z.lxor (Z.shiftl (Spec.reduce_at i y) (Z.of_nat n)) low.
Proof.
  intros Hlow. unfold Spec.reduce_at.
  rewrite Z.lxor_spec, Z.shiftl_spec by lia.
  rewrite (testbit_above low _ _ Hlow) by lia.
  rewrite xorb_false_r.
  replace (Z.of_nat (n + i) + 8 - Z.of_nat n) with (Z.of_nat i + 8) by lia.
  destruct (Z.testbit y (Z.of_nat i + 8)); [| reflexivity].
  rewrite Z.shiftl_lxor, Z.shiftl_shiftl by lia.
  replace (Z.of_nat i + Z.of_nat n) with (Z.of_nat (n + i)) by lia.
  rewrite !Z.lxor_assoc. f_equal. apply Z.lxor_comm.
Qed.

Lemma poly_steps_shift (k n : nat) (y low : Z) :
  0 <= low < 2 ^ (Z.of_nat n + 8) ->
  Spec.poly_steps k n (Z.lxor (Z.shiftl y (Z.of_nat n)) low)
  = Z.lxor (Z.shiftl (Spec.poly_steps k 0 y) (Z.of_nat n)) low.
Proof.
  intros Hlow. revert y. induction k as [| k IH]; intros y.
  - reflexivity.
  - cbn [Spec.poly_steps]. rewrite reduce_at_shift by exact Hlow.
    rewrite IH. reflexivity.
Qed.

Lemma message_range (data : list byte) :
  0 <= Spec.message data < 2 ^ (8 * Z.of_nat (length data)).
Proof.
  induction data as [| b data IH].
  - cbn. lia.
  - cbn [Spec.message length].
    pose proof (char_to_int_range b) as Hb.
    set (n := Z.of_nat (length data)) in *.
    assert (Hn : 0 <= n) by (unfold n; lia).
    replace (8 * Z.of_nat (S (length data))) with (8 * n + 8) by (unfold n; lia).
    apply lxor_range; [lia | |].
    + rewrite Z.shiftl_mul_pow2 by lia.
      rewrite Z.pow_add_r by lia. change (2 ^ 8) with 256. nia.
    + rewrite Z.pow_add_r by lia. change (2 ^ 8) with 256. nia.
Qed.

(** The eight rounds on a register are the eight division steps on the
    register multiplied by [x^8]. *)
Lemma byte_step_remainder (r : Z) (b : byte) :
  0 <= r < 256 ->
  Spec.byte_step r b = Spec.poly_mod 8 (Z.shiftl (Z.lxor r (char_to_int b)) 8).
Proof.
  intros Hr.
  assert (H : forallb (fun x =>
                (256 <=? x) || (Nat.iter 8 Spec.shift_step x =? Spec.poly_mod 8 (Z.shiftl x 8)))
                all_words = true) by (vm_compute; reflexivity).
  pose proof (lxor_byte_range r (char_to_int b) Hr (char_to_int_range b)) as Hx.
  assert (Hw : 0 <= Z.lxor r (char_to_int b) < 65536) by lia.
  apply (for_all_words _ H) in Hw. cbv beta in Hw.
  destruct (Z.leb_spec 256 (Z.lxor r (char_to_int b))) as [Hge | _]; [lia |].
  now apply Z.eqb_eq.
Qed.

(** The register after the bytes [data], started at [r], is the remainder of
    [r * x^(8n) + message * x^8]. *)
Lemma crc8_from_remainder (data : list byte) (r : Z) :
  0 <= r < 256 ->
  fold_left Spec.byte_step data r
  = Spec.poly_mod (8 * length data)
      (Z.lxor (Z.shiftl r (8 * Z.of_nat (length data))) (Z.shiftl (Spec.message data) 8)).
Proof.
  revert r. induction data as [| b data IH]; intros r Hr.
  - cbn. now rewrite Z.lxor_0_r.
  - cbn [fold_left length Spec.message].
    rewrite IH by apply byte_step_range.
    set (n := length data).
    replace (8 * S n)%nat with (8 * n + 8)%nat by lia.
    rewrite poly_mod_split. f_equal.
    pose proof (message_range data) as Hm. fold n in Hm.
    assert (Hlow : 0 <= Z.shiftl (Spec.message data) 8 < 2 ^ (Z.of_nat (8 * n) + 8)).
    { rewrite Z.shiftl_mul_pow2 by lia.
      replace (Z.of_nat (8 * n) + 8) with (8 * Z.of_nat n + 8) by lia.
      rewrite Z.pow_add_r by lia. change (2 ^ 8) with 256. nia. }
    replace (Z.lxor (Z.shiftl r (8 * Z.of_nat (S n)))
               (Z.shiftl (Z.lxor (Z.shiftl (char_to_int b) (8 * Z.of_nat n)) (Spec.message data)) 8))
      with (Z.lxor (Z.shiftl (Z.shiftl (Z.lxor r (char_to_int b)) 8) (Z.of_nat (8 * n)))
              (Z.shiftl (Spec.message data) 8)).
    + rewrite poly_steps_shift by exact Hlow.
      rewrite poly_steps_0, <- byte_step_remainder by exact Hr.
      do 2 f_equal. lia.
    + rewrite !Z.shiftl_lxor, !Z.shiftl_shiftl by lia.
      rewrite Z.lxor_assoc.
      replace (8 + Z.of_nat (8 * n)) with (8 * Z.of_nat (S n)) by lia.
      replace (8 * Z.of_nat n + 8) with (8 * Z.of_nat (S n)) by lia.
      reflexivity.
Qed.

Lemma crc8_remainder (data : list byte) : Spec.crc8 data = Spec.remainder data.
Proof. unfold Spec.crc8, Spec.remainder. apply crc8_from_remainder. lia. Qed.

(** C1. [crc8] is the CRC-8 of the specification: register initialised to
    0xFF, each byte XOR-ed into the register and followed by 8 rounds of
    "shift left, XOR 0x31 if the high bit was set", truncated to 8 bits, no
    final XOR and no reflection. On the first [length data] bytes of a buffer
    it returns that checksum, which is a byte and is the remainder, by
    x^8 + x^5 + x^4 + 1, of the message read most significant bit first with
    0xFF added to its first byte; the all-zero two-byte input gives 0x81,
    which is not zero, 0xBEEF gives 0x92 and 0xFFFF gives 0xAC. *)
Theorem crc8_is_crc8_poly31_initFF :
  (forall data rest : list byte,
      crc8 (cells_of_bytes (data ++ rest)) (Z.of_nat (length data))
      = Some (Spec.crc8 data)
      /\ Spec.crc8 data = Spec.remainder data
      /\ 0 <= Spec.crc8 data < 256)
  /\ (forall (r : Z) (b : byte),
         Spec.byte_step r b
         = Nat.iter 8 (fun c => if Z.testbit c 7
                                then Z.lxor (Z.shiftl c 1) 0x31 mod 256
                                else Z.shiftl c 1 mod 256)
                    (Z.lxor r (char_to_int b)))
  /\ crc8 (cells_of_bytes [x00; x00]) 2 = Some 0x81
  /\ crc8 (cells_of_bytes [x00; x00]) 2 <> Some 0
  /\ crc8 (cells_of_bytes [xbe; xef]) 2 = Some 0x92
  /\ crc8 (cells_of_bytes [xff; xff]) 2 = Some 0xAC.
Proof.
  split; [| split; [| split; [| split; [| split]]]].
  - intros data rest. split; [| split].
    + apply crc8_prefix.
    + apply crc8_remainder.
    + apply (spec_crc8_from_range data 0xFF). lia.
  - intros r b. unfold Spec.byte_step. cbn [Nat.iter nat_rect].
    unfold Spec.shift_step, Spec.trunc8.
    repeat rewrite <- uint8_t_land. reflexivity.
  - vm_compute. reflexivity.
  - vm_compute. discriminate.
  - vm_compute. reflexivity.
  - vm_compute. reflexivity.
Qed.

(** From here on the checksum is used through [crc8_prefix] only. *)
Opaque crc8.

(** ** Running the driver, one step at a time *)

Section Steps.

Context {A B : Type}.
Variables (m : M A) (k : A -> M B) (s s' : state).

Lemma bind_Ret (a : A) : m s = (Ret a, s') -> bind m k s = k a s'.
Proof. unfold bind. now intros ->. Qed.

Lemma bind_Halt (msg : string) :
  m s = (Halt msg, s') -> bind m k s = (Halt msg, s').
Proof. unfold bind. now intros ->. Qed.

Lemma bind_Undef : m s = (Undef, s') -> bind m k s = (Undef, s').
Proof. unfold bind. now intros ->. Qed.

End Steps.

Lemma write_command_run (cmd : Z) (s : state) :
  write_command cmd s
  = (Ret tt,
     emit (I2C_write (_i2c_address (this s))
             [uint8_t (Z.shiftr (uint16_t cmd) 8); uint8_t (Z.land (uint16_t cmd) 0xFF)])
          s).
Proof. reflexivity. Qed.

Lemma uint16_big_endian (msb lsb : byte) :
  uint16_t (Z.lor (Z.shiftl (char_to_int msb) 8) (char_to_int lsb))
  = big_endian_word msb lsb.
Proof.
  assert (H : forallb (fun w =>
                let msb := byte_of_Z (w / 256) in
                let lsb := byte_of_Z w in
                uint16_t (Z.lor (Z.shiftl (char_to_int msb) 8) (char_to_int lsb)) =? w)
                all_words = true) by (vm_compute; reflexivity).
  pose proof (for_all_words _ H _ (big_endian_word_range msb lsb)) as Hw.
  cbv beta zeta in Hw.
  rewrite big_endian_word_msb, big_endian_word_lsb in Hw.
  now apply Z.eqb_eq.
Qed.

Lemma measurement_command (s : state) :
  write_command SHT31_MEAS_HIGHREP s
  = (Ret tt, emit (I2C_write (_i2c_address (this s)) [0x24; 0x00]) s).
Proof. reflexivity. Qed.

(** One step of a computation whose first action returns. *)
Ltac step :=
  lazymatch goal with
  | |- bind ?m ?k ?s = _ => rewrite (bind_Ret m k s _ _ eq_refl)
  end.

(** What one acquisition does when the device answers with six bytes. *)
Lemma read_temperature_humidity_run (s : state) (b0 b1 b2 b3 b4 b5 : byte)
    (rest : list (list byte)) :
  responses (env s) = [b0; b1; b2; b3; b4; b5] :: rest ->
  read_temperature_humidity s
  = if (char_to_int b2 =? Spec.crc8 [b0; b1]) && (char_to_int b5 =? Spec.crc8 [b3; b4])
    then (Ret true,
          committed (temperature_of_word (big_endian_word b0 b1))
                    (humidity_of_word (big_endian_word b3 b4))
                    (measured s rest))
    else (Ret false, measured s rest).
Proof.
  destruct s as [[rs tr] drv]. cbn [env responses]. intros ->.
  unfold read_temperature_humidity.
  rewrite (bind_Ret _ _ _ _ tt (measurement_command _)).
  step. step. step.
  cbn [store firstn repeat].
  step. step. step.
  rewrite uint16_big_endian.
  change [Some (char_to_int b0); Some (char_to_int b1); Some (char_to_int b2);
          Some (char_to_int b3); Some (char_to_int b4); Some (char_to_int b5)]
    with (cells_of_bytes ([b0; b1] ++ [b2; b3; b4; b5])).
  change 2 with (Z.of_nat (length [b0; b1])) at 1.
  rewrite crc8_prefix.
  step.
  unfold measured, measurement_io, emit; cbn [env this responses trace].
  rewrite <- !app_assoc. cbn [app].
  destruct (char_to_int b2 =? Spec.crc8 [b0; b1]); cbn [negb andb]; [| reflexivity].
  step.
  step.
  step.
  rewrite uint16_big_endian.
  change (skipn 3 (cells_of_bytes _))
    with (cells_of_bytes ([b3; b4] ++ [b5])).
  change 2 with (Z.of_nat (length [b3; b4])) at 1.
  rewrite crc8_prefix.
  step.
  destruct (char_to_int b5 =? Spec.crc8 [b3; b4]); cbn [negb]; reflexivity.
Qed.

Lemma crc8_two (b0 b1 : byte) (rest : list byte) :
  crc8 (cells_of_bytes (b0 :: b1 :: rest)) 2 = Some (Spec.crc8 [b0; b1]).
Proof. exact (crc8_prefix [b0; b1] rest). Qed.

Lemma crc_matches_eqb (msb lsb crc : byte) :
  crc_matches msb lsb crc <-> (char_to_int crc =? Spec.crc8 [msb; lsb]) = true.
Proof.
  unfold crc_matches. rewrite crc8_two, Z.eqb_eq.
  split; [intros [= ->] | intros ->]; reflexivity.
Qed.

Lemma char_to_int_inj (b b' : byte) : char_to_int b = char_to_int b' -> b = b'.
Proof.
  intros H. rewrite <- (byte_of_char b), <- (byte_of_char b'). now rewrite H.
Qed.

Lemma flip_bit_changes (k : nat) (b : byte) : (k < 8)%nat -> flip_bit k b <> b.
Proof.
  intros Hk.
  do 8 (destruct k as [| k]; [destruct b; discriminate |]).
  lia.
Qed.

(** A flipped checksum byte no longer matches. *)
Lemma flipped_crc_mismatch (k : nat) (msb lsb crc : byte) :
  (k < 8)%nat -> crc_matches msb lsb crc -> ~ crc_matches msb lsb (flip_bit k crc).
Proof.
  unfold crc_matches. intros Hk -> [= H].
  apply char_to_int_inj in H. symmetry in H. revert H. now apply flip_bit_changes.
Qed.

(** ** Acquisition *)

(** C2. When the bus delivers six bytes, [read_temperature_humidity] returns
    (it neither halts nor is undefined), and it returns true exactly when
    byte 2 is [crc8] of bytes 0-1 and byte 5 is [crc8] of bytes 3-4.
    Consequently, whatever the state it starts from, a response that differs
    from one with matching checksums by one flipped bit in byte 2, or one
    flipped bit in byte 5, makes it return false. *)
Theorem read_temperature_humidity_true_iff_crcs
    (s : state) (b0 b1 b2 b3 b4 b5 : byte) (rest : list (list byte)) :
  responses (env s) = [b0; b1; b2; b3; b4; b5] :: rest ->
  (exists ok : bool,
      fst (read_temperature_humidity s) = Ret ok
      /\ (ok = true <-> crc_matches b0 b1 b2 /\ crc_matches b3 b4 b5))
  /\ (crc_matches b0 b1 b2 -> crc_matches b3 b4 b5 ->
      forall (k : nat) (s' : state) (rest' : list (list byte)),
        (k < 8)%nat ->
        (responses (env s') = [b0; b1; flip_bit k b2; b3; b4; b5] :: rest' ->
         fst (read_temperature_humidity s') = Ret false)
        /\ (responses (env s') = [b0; b1; b2; b3; b4; flip_bit k b5] :: rest' ->
            fst (read_temperature_humidity s') = Ret false)).
Proof.
  intros Hs. split.
  - rewrite (read_temperature_humidity_run s _ _ _ _ _ _ _ Hs).
    pose proof (crc_matches_eqb b0 b1 b2) as Ht.
    pose proof (crc_matches_eqb b3 b4 b5) as Hh.
    destruct (char_to_int b2 =? Spec.crc8 [b0; b1]),
             (char_to_int b5 =? Spec.crc8 [b3; b4]); cbn [andb fst].
    + exists true. intuition.
    + exists false. intuition discriminate.
    + exists false. intuition discriminate.
    + exists false. intuition discriminate.
  - intros Ht Hh k s' rest' Hk. split; intros Hs'.
    + rewrite (read_temperature_humidity_run s' _ _ _ _ _ _ _ Hs').
      pose proof (flipped_crc_mismatch k _ _ _ Hk Ht) as Hflip.
      rewrite crc_matches_eqb in Hflip.
      destruct (char_to_int (flip_bit k b2) =? Spec.crc8 [b0; b1]); [now elim Hflip |].
      reflexivity.
    + rewrite (read_temperature_humidity_run s' _ _ _ _ _ _ _ Hs').
      pose proof (flipped_crc_mismatch k _ _ _ Hk Hh) as Hflip.
      rewrite crc_matches_eqb in Hflip.
      destruct (char_to_int (flip_bit k b5) =? Spec.crc8 [b3; b4]); [now elim Hflip |].
      now rewrite andb_false_r.
Qed.

Lemma read_temperature_humidity_true_iff_crcs_witness :
  (exists ok : bool,
      fst (read_temperature_humidity (fresh [frame 0x6000 0x4000])) = Ret ok
      /\ (ok = true <-> crc_matches x60 x00 xd4 /\ crc_matches x40 x00 x08))
  /\ (crc_matches x60 x00 xd4 -> crc_matches x40 x00 x08 ->
      forall (k : nat) (s' : state) (rest' : list (list byte)),
        (k < 8)%nat ->
        (responses (env s') = [x60; x00; flip_bit k xd4; x40; x00; x08] :: rest' ->
         fst (read_temperature_humidity s') = Ret false)
        /\ (responses (env s') = [x60; x00; xd4; x40; x00; flip_bit k x08] :: rest' ->
            fst (read_temperature_humidity s') = Ret false)).
Proof.
  apply (read_temperature_humidity_true_iff_crcs
           (fresh [frame 0x6000 0x4000]) x60 x00 xd4 x40 x00 x08 []).
  reflexivity.
Defined.

(** C3. Acquisition is atomic on the cached fields. Facing a six-byte
    response, [read_temperature_humidity] returns a boolean; when it is false,
    which is the case as soon as one checksum mismatches and in particular
    when the temperature checksum matches and the humidity one does not, both
    cached fields are what they were; when it is true both hold the values
    converted from the response. Never is exactly one of them written. *)
Theorem acquisition_updates_both_or_neither
    (s : state) (b0 b1 b2 b3 b4 b5 : byte) (rest : list (list byte)) :
  responses (env s) = [b0; b1; b2; b3; b4; b5] :: rest ->
  exists (ok : bool) (s' : state),
    read_temperature_humidity s = (Ret ok, s')
    /\ (ok = false <-> ~ (crc_matches b0 b1 b2 /\ crc_matches b3 b4 b5))
    /\ (ok = false ->
        _temperature (this s') = _temperature (this s)
        /\ _humidity (this s') = _humidity (this s))
    /\ (ok = true ->
        _temperature (this s') = Some (temperature_of_word (big_endian_word b0 b1))
        /\ _humidity (this s') = Some (humidity_of_word (big_endian_word b3 b4)))
    /\ (crc_matches b0 b1 b2 -> ~ crc_matches b3 b4 b5 ->
        ok = false /\ _temperature (this s') = _temperature (this s)).
Proof.
  intros Hs.
  rewrite (read_temperature_humidity_run s _ _ _ _ _ _ _ Hs).
  pose proof (crc_matches_eqb b0 b1 b2) as Ht.
  pose proof (crc_matches_eqb b3 b4 b5) as Hh.
  destruct (char_to_int b2 =? Spec.crc8 [b0; b1]),
           (char_to_int b5 =? Spec.crc8 [b3; b4]); cbn [andb].
  - exists true, (committed (temperature_of_word (big_endian_word b0 b1))
                            (humidity_of_word (big_endian_word b3 b4))
                            (measured s rest)).
    split; [reflexivity |]. cbn. intuition discriminate.
  - exists false, (measured s rest). split; [reflexivity |]. cbn. intuition discriminate.
  - exists false, (measured s rest). split; [reflexivity |]. cbn. intuition discriminate.
  - exists false, (measured s rest). split; [reflexivity |]. cbn. intuition discriminate.
Qed.

Lemma acquisition_updates_both_or_neither_witness :
  exists (ok : bool) (s' : state),
    read_temperature_humidity (holding 21 40 [[x60; x00; xd4; x40; x00; x09]])
    = (Ret ok, s')
    /\ (ok = false <-> ~ (crc_matches x60 x00 xd4 /\ crc_matches x40 x00 x09))
    /\ (ok = false ->
        _temperature (this s') = Some 21%float /\ _humidity (this s') = Some 40%float)
    /\ (ok = true ->
        _temperature (this s') = Some (temperature_of_word (big_endian_word x60 x00))
        /\ _humidity (this s') = Some (humidity_of_word (big_endian_word x40 x00)))
    /\ (crc_matches x60 x00 xd4 -> ~ crc_matches x40 x00 x09 ->
        ok = false /\ _temperature (this s') = Some 21%float).
Proof.
  apply (acquisition_updates_both_or_neither
           (holding 21 40 [[x60; x00; xd4; x40; x00; x09]])
           x60 x00 xd4 x40 x00 x09 []).
  reflexivity.
Defined.

(** ** Conversion *)

Lemma within_close_to (eps : Q) (f : float) (q : Q) :
  within eps f q <-> close_to eps f q = true.
Proof.
  unfold within, close_to. split.
  - intros (x & -> & Hx). now apply Qle_bool_iff.
  - destruct (Q_of_double f) as [x |]; [| discriminate].
    intros Hx. exists x. split; [reflexivity | now apply Qle_bool_iff].
Qed.

(** The doubles the source computes are the specification's formulas up to
    the rounding of one division and one addition. *)
Lemma conversions_within_tolerance (w : Z) :
  0 <= w < 65536 ->
  within tolerance (temperature_of_word w) (temperature_C w)
  /\ within tolerance (humidity_of_word w) (humidity_pct w).
Proof.
  assert (H : forallb (fun w =>
                close_to tolerance (temperature_of_word w) (temperature_C w)
                && close_to tolerance (humidity_of_word w) (humidity_pct w))
                all_words = true) by (vm_compute; reflexivity).
  intros Hw. apply (for_all_words _ H) in Hw. apply andb_true_iff in Hw.
  now rewrite !within_close_to.
Qed.

Lemma conversions_at_bounds :
  temperature_of_word 0 = (-45)%float /\ temperature_of_word 0xFFFF = 130%float
  /\ humidity_of_word 0 = 0%float /\ humidity_of_word 0xFFFF = 100%float.
Proof. repeat split; vm_compute; reflexivity. Qed.

(** C4. After every successful acquisition the cached values are the
    conversion formulas applied to the big-endian words of the response:
    the doubles the source computes, which are within 2^-46 of
    -45 + 175 * word / 65535 and of 100 * word / 65535; word 0x0000 gives
    exactly -45.0 and 0.0, word 0xFFFF exactly 130.0 and 100.0. *)
Theorem successful_acquisition_caches_conversions
    (s s' : state) (b0 b1 b2 b3 b4 b5 : byte) (rest : list (list byte)) :
  responses (env s) = [b0; b1; b2; b3; b4; b5] :: rest ->
  read_temperature_humidity s = (Ret true, s') ->
  let temperature_word := big_endian_word b0 b1 in
  let humidity_word := big_endian_word b3 b4 in
  exists t h : float,
    _temperature (this s') = Some t
    /\ _humidity (this s') = Some h
    /\ t = temperature_of_word temperature_word
    /\ h = humidity_of_word humidity_word
    /\ within tolerance t (temperature_C temperature_word)
    /\ within tolerance h (humidity_pct humidity_word)
    /\ (temperature_word = 0x0000 -> t = (-45)%float)
    /\ (temperature_word = 0xFFFF -> t = 130%float)
    /\ (humidity_word = 0x0000 -> h = 0%float)
    /\ (humidity_word = 0xFFFF -> h = 100%float).
Proof.
  intros Hs Hrun temperature_word humidity_word.
  rewrite (read_temperature_humidity_run s _ _ _ _ _ _ _ Hs) in Hrun.
  destruct (_ && _); [| discriminate].
  injection Hrun as <-.
  exists (temperature_of_word temperature_word), (humidity_of_word humidity_word).
  destruct (conversions_within_tolerance _ (big_endian_word_range b0 b1)) as [Ht _].
  destruct (conversions_within_tolerance _ (big_endian_word_range b3 b4)) as [_ Hh].
  destruct conversions_at_bounds as (T0 & T1 & H0 & H1).
  repeat split; try reflexivity; try assumption.
  - now intros ->.
  - now intros ->.
  - now intros ->.
  - now intros ->.
Qed.

Lemma successful_acquisition_caches_conversions_witness :
  exists t h : float,
    _temperature (this (committed (temperature_of_word 0xFFFF) (humidity_of_word 0)
                          (measured (fresh [frame 0xFFFF 0]) []))) = Some t
    /\ _humidity (this (committed (temperature_of_word 0xFFFF) (humidity_of_word 0)
                          (measured (fresh [frame 0xFFFF 0]) []))) = Some h
    /\ t = temperature_of_word (big_endian_word xff xff)
    /\ h = humidity_of_word (big_endian_word x00 x00)
    /\ within tolerance t (temperature_C (big_endian_word xff xff))
    /\ within tolerance h (humidity_pct (big_endian_word x00 x00))
    /\ (big_endian_word xff xff = 0x0000 -> t = (-45)%float)
    /\ (big_endian_word xff xff = 0xFFFF -> t = 130%float)
    /\ (big_endian_word x00 x00 = 0x0000 -> h = 0%float)
    /\ (big_endian_word x00 x00 = 0xFFFF -> h = 100%float).
Proof.
  apply (successful_acquisition_caches_conversions
           (fresh [frame 0xFFFF 0]) _ xff xff xac x00 x00 x81 []).
  - reflexivity.
  - vm_compute. reflexivity.
Defined.

(** ** Public accessors *)

(** What the accessors do when the device answers with six bytes. *)
Lemma read_temperature_run (s : state) (b0 b1 b2 b3 b4 b5 : byte)
    (rest : list (list byte)) :
  responses (env s) = [b0; b1; b2; b3; b4; b5] :: rest ->
  read_temperature s
  = if (char_to_int b2 =? Spec.crc8 [b0; b1]) && (char_to_int b5 =? Spec.crc8 [b3; b4])
    then (Ret (temperature_of_word (big_endian_word b0 b1)),
          committed (temperature_of_word (big_endian_word b0 b1))
                    (humidity_of_word (big_endian_word b3 b4))
                    (measured s rest))
    else (Halt temperature_fault, emit (Hard_fault temperature_fault) (measured s rest)).
Proof.
  intros Hs. unfold read_temperature.
  unfold bind at 1. rewrite (read_temperature_humidity_run s _ _ _ _ _ _ _ Hs).
  destruct (_ && _); reflexivity.
Qed.

Lemma read_humidity_run (s : state) (b0 b1 b2 b3 b4 b5 : byte)
    (rest : list (list byte)) :
  responses (env s) = [b0; b1; b2; b3; b4; b5] :: rest ->
  read_humidity s
  = if (char_to_int b2 =? Spec.crc8 [b0; b1]) && (char_to_int b5 =? Spec.crc8 [b3; b4])
    then (Ret (humidity_of_word (big_endian_word b3 b4)),
          committed (temperature_of_word (big_endian_word b0 b1))
                    (humidity_of_word (big_endian_word b3 b4))
                    (measured s rest))
    else (Halt humidity_fault, emit (Hard_fault humidity_fault) (measured s rest)).
Proof.
  intros Hs. unfold read_humidity.
  unfold bind at 1. rewrite (read_temperature_humidity_run s _ _ _ _ _ _ _ Hs).
  destruct (_ && _); reflexivity.
Qed.

Lemma both_crcs_match (b0 b1 b2 b3 b4 b5 : byte) :
  crc_matches b0 b1 b2 -> crc_matches b3 b4 b5 ->
  (char_to_int b2 =? Spec.crc8 [b0; b1]) && (char_to_int b5 =? Spec.crc8 [b3; b4]) = true.
Proof.
  intros Ht Hh. apply crc_matches_eqb in Ht, Hh. now rewrite Ht, Hh.
Qed.

Lemma some_crc_mismatches (b0 b1 b2 b3 b4 b5 : byte) :
  ~ (crc_matches b0 b1 b2 /\ crc_matches b3 b4 b5) ->
  (char_to_int b2 =? Spec.crc8 [b0; b1]) && (char_to_int b5 =? Spec.crc8 [b3; b4]) = false.
Proof.
  intros H. apply not_true_is_false. intros Hb. apply H.
  apply andb_true_iff in Hb. now rewrite !crc_matches_eqb.
Qed.

(** C5, as stated, fails at the word pair (0x6000, 0x4000): the response with
    correct checksums is accepted and [read_temperature] returns, but the
    value it returns is 20.626..., which is farther than 0.03 from 20.66 and
    so is not 20.66 to two decimals. *)
Lemma read_temperature_0x6000_not_20_66 :
  exists (t : float) (s' : state),
    read_temperature (fresh [frame 0x6000 0x4000]) = (Ret t, s')
    /\ t = temperature_of_word 0x6000
    /\ ~ approximately 20.66 t
    /\ ~ within (3 / 100) t 20.66.
Proof.
  eexists _, _. split; [vm_compute; reflexivity |].
  split; [vm_compute; reflexivity |].
  unfold approximately. rewrite !within_close_to.
  split; vm_compute; discriminate.
Qed.

(** C5. Round trip at the public interface: on a six-byte response whose two
    checksum bytes are correct, [read_temperature] returns, without halting,
    the conversion of the temperature word, within 2^-46 of
    -45 + 175 * word / 65535, and [read_humidity] returns the conversion of
    the humidity word, within 2^-46 of 100 * word / 65535. For the word pair
    (0x6000, 0x4000) these are 20.63 and 25.00 to two decimals. *)
Theorem accessors_round_trip
    (s : state) (b0 b1 b2 b3 b4 b5 : byte) (rest : list (list byte)) :
  responses (env s) = [b0; b1; b2; b3; b4; b5] :: rest ->
  crc_matches b0 b1 b2 ->
  crc_matches b3 b4 b5 ->
  let temperature_word := big_endian_word b0 b1 in
  let humidity_word := big_endian_word b3 b4 in
  (exists (t : float) (s' : state),
      read_temperature s = (Ret t, s')
      /\ t = temperature_of_word temperature_word
      /\ within tolerance t (temperature_C temperature_word)
      /\ (temperature_word = 0x6000 -> approximately 20.63 t))
  /\ (exists (h : float) (s' : state),
         read_humidity s = (Ret h, s')
         /\ h = humidity_of_word humidity_word
         /\ within tolerance h (humidity_pct humidity_word)
         /\ (humidity_word = 0x4000 -> approximately 25.0 h)).
Proof.
  intros Hs Ht Hh temperature_word humidity_word.
  rewrite (read_temperature_run s _ _ _ _ _ _ _ Hs).
  rewrite (read_humidity_run s _ _ _ _ _ _ _ Hs).
  rewrite (both_crcs_match _ _ _ _ _ _ Ht Hh).
  destruct (conversions_within_tolerance _ (big_endian_word_range b0 b1)) as [Wt _].
  destruct (conversions_within_tolerance _ (big_endian_word_range b3 b4)) as [_ Wh].
  subst temperature_word humidity_word.
  split.
  - eexists _, _. split; [reflexivity |]. split; [reflexivity |]. split; [exact Wt |].
    intros E. rewrite E. unfold approximately. rewrite within_close_to.
    vm_compute. reflexivity.
  - eexists _, _. split; [reflexivity |]. split; [reflexivity |]. split; [exact Wh |].
    intros E. rewrite E. unfold approximately. rewrite within_close_to.
    vm_compute. reflexivity.
Qed.

Lemma accessors_round_trip_witness :
  (exists (t : float) (s' : state),
      read_temperature (fresh [frame 0x6000 0x4000]) = (Ret t, s')
      /\ t = temperature_of_word (big_endian_word x60 x00)
      /\ within tolerance t (temperature_C (big_endian_word x60 x00))
      /\ (big_endian_word x60 x00 = 0x6000 -> approximately 20.63 t))
  /\ (exists (h : float) (s' : state),
         read_humidity (fresh [frame 0x6000 0x4000]) = (Ret h, s')
         /\ h = humidity_of_word (big_endian_word x40 x00)
         /\ within tolerance h (humidity_pct (big_endian_word x40 x00))
         /\ (big_endian_word x40 x00 = 0x4000 -> approximately 25.0 h)).
Proof.
  apply (accessors_round_trip (fresh [frame 0x6000 0x4000])
           x60 x00 xd4 x40 x00 x08 []).
  - reflexivity.
  - unfold crc_matches. rewrite crc8_two. vm_compute. reflexivity.
  - unfold crc_matches. rewrite crc8_two. vm_compute. reflexivity.
Defined.

(** C6, as stated, fails. With a response whose temperature checksum matches
    and whose humidity checksum does not, [read_temperature] halts with the
    temperature message; with a response whose humidity checksum matches and
    whose temperature checksum does not, [read_humidity] halts with the
    humidity message. In both runs the message names the quantity whose
    checksum was right. *)
Lemma fault_message_can_name_the_valid_quantity :
  (crc_matches x00 x00 x81
   /\ ~ crc_matches x00 x00 x00
   /\ fst (read_temperature (fresh [[x00; x00; x81; x00; x00; x00]]))
      = Halt "SHT31 TEMPERATURE CRC FAIL")
  /\ (~ crc_matches x00 x00 x00
      /\ crc_matches x00 x00 x81
      /\ fst (read_humidity (fresh [[x00; x00; x00; x00; x00; x81]]))
         = Halt "SHT31 HUMIDITY CRC FAIL").
Proof.
  assert (Hok : crc_matches x00 x00 x81)
    by (unfold crc_matches; rewrite crc8_two; vm_compute; reflexivity).
  assert (Hko : ~ crc_matches x00 x00 x00)
    by (unfold crc_matches; rewrite crc8_two; vm_compute; discriminate).
  repeat split; try assumption; vm_compute; reflexivity.
Qed.

(** C6. The fatal-error message names the accessor that was called, not the
    checksum that failed: on a six-byte response with a mismatching checksum,
    whichever it is, [read_temperature] delivers
    "SHT31 TEMPERATURE CRC FAIL" to [hard_fault] and does not return, and
    [read_humidity] delivers "SHT31 HUMIDITY CRC FAIL" and does not return;
    the cached fields are left as they were. These are the only messages,
    and an accessor halts only on a mismatch. *)
Theorem fault_message_names_the_accessor
    (s : state) (b0 b1 b2 b3 b4 b5 : byte) (rest : list (list byte)) :
  responses (env s) = [b0; b1; b2; b3; b4; b5] :: rest ->
  (~ (crc_matches b0 b1 b2 /\ crc_matches b3 b4 b5) ->
   read_temperature s
   = (Halt "SHT31 TEMPERATURE CRC FAIL",
      emit (Hard_fault "SHT31 TEMPERATURE CRC FAIL") (measured s rest))
   /\ read_humidity s
      = (Halt "SHT31 HUMIDITY CRC FAIL",
         emit (Hard_fault "SHT31 HUMIDITY CRC FAIL") (measured s rest))
   /\ this (emit (Hard_fault "SHT31 TEMPERATURE CRC FAIL") (measured s rest)) = this s
   /\ this (emit (Hard_fault "SHT31 HUMIDITY CRC FAIL") (measured s rest)) = this s)
  /\ (forall (msg : string) (s' : state),
         read_temperature s = (Halt msg, s') ->
         msg = "SHT31 TEMPERATURE CRC FAIL"%string
         /\ ~ (crc_matches b0 b1 b2 /\ crc_matches b3 b4 b5))
  /\ (forall (msg : string) (s' : state),
         read_humidity s = (Halt msg, s') ->
         msg = "SHT31 HUMIDITY CRC FAIL"%string
         /\ ~ (crc_matches b0 b1 b2 /\ crc_matches b3 b4 b5)).
Proof.
  intros Hs.
  rewrite (read_temperature_run s _ _ _ _ _ _ _ Hs).
  rewrite (read_humidity_run s _ _ _ _ _ _ _ Hs).
  split; [| split].
  - intros Hbad. rewrite (some_crc_mismatches _ _ _ _ _ _ Hbad).
    repeat split; reflexivity.
  - intros msg s' Hrun.
    destruct (_ && _) eqn:Hcrc; [discriminate |].
    injection Hrun as <- _. split; [reflexivity |].
    intros [Ht Hh]. rewrite (both_crcs_match _ _ _ _ _ _ Ht Hh) in Hcrc. discriminate.
  - intros msg s' Hrun.
    destruct (_ && _) eqn:Hcrc; [discriminate |].
    injection Hrun as <- _. split; [reflexivity |].
    intros [Ht Hh]. rewrite (both_crcs_match _ _ _ _ _ _ Ht Hh) in Hcrc. discriminate.
Qed.

Lemma fault_message_names_the_accessor_witness :
  fst (read_temperature (fresh [[x00; x00; x81; x00; x00; x00]]))
  = Halt "SHT31 TEMPERATURE CRC FAIL"
  /\ fst (read_humidity (fresh [[x00; x00; x81; x00; x00; x00]]))
     = Halt "SHT31 HUMIDITY CRC FAIL".
Proof.
  destruct (fault_message_names_the_accessor
              (fresh [[x00; x00; x81; x00; x00; x00]])
              x00 x00 x81 x00 x00 x00 [] eq_refl) as [Hhalt _].
  destruct Hhalt as (Ht & Hh & _).
  - intros [_ Hcrc]. revert Hcrc.
    unfold crc_matches. rewrite crc8_two. vm_compute. discriminate.
  - rewrite Ht, Hh. split; reflexivity.
Defined.

(** C9. Each accessor updates both cached fields. On a six-byte response,
    whenever [read_temperature] returns a value, the cached temperature is
    that value and the cached humidity has been overwritten with the
    conversion of the humidity word of the same response; whenever
    [read_humidity] returns, the cached temperature has likewise been
    overwritten. Both do return when the two checksums match. *)
Theorem accessor_overwrites_both_fields
    (s : state) (b0 b1 b2 b3 b4 b5 : byte) (rest : list (list byte)) :
  responses (env s) = [b0; b1; b2; b3; b4; b5] :: rest ->
  (forall (t : float) (s' : state),
      read_temperature s = (Ret t, s') ->
      t = temperature_of_word (big_endian_word b0 b1)
      /\ _temperature (this s') = Some t
      /\ _humidity (this s') = Some (humidity_of_word (big_endian_word b3 b4)))
  /\ (forall (h : float) (s' : state),
         read_humidity s = (Ret h, s') ->
         h = humidity_of_word (big_endian_word b3 b4)
         /\ _humidity (this s') = Some h
         /\ _temperature (this s') = Some (temperature_of_word (big_endian_word b0 b1)))
  /\ (crc_matches b0 b1 b2 -> crc_matches b3 b4 b5 ->
      (exists t s', read_temperature s = (Ret t, s'))
      /\ (exists h s', read_humidity s = (Ret h, s'))).
Proof.
  intros Hs.
  rewrite (read_temperature_run s _ _ _ _ _ _ _ Hs).
  rewrite (read_humidity_run s _ _ _ _ _ _ _ Hs).
  split; [| split].
  - intros t s' Hrun. destruct (_ && _); [| discriminate].
    injection Hrun as <- <-. repeat split; reflexivity.
  - intros h s' Hrun. destruct (_ && _); [| discriminate].
    injection Hrun as <- <-. repeat split; reflexivity.
  - intros Ht Hh. rewrite (both_crcs_match _ _ _ _ _ _ Ht Hh).
    split; eexists _, _; reflexivity.
Qed.

Lemma accessor_overwrites_both_fields_witness :
  exists s' : state,
    read_temperature (holding 21 40 [frame 0x6000 0x4000])
    = (Ret (temperature_of_word 0x6000), s')
    /\ _humidity (this (holding 21 40 [frame 0x6000 0x4000])) = Some 40%float
    /\ _humidity (this s') = Some (humidity_of_word 0x4000).
Proof.
  destruct (accessor_overwrites_both_fields
              (holding 21 40 [frame 0x6000 0x4000])
              x60 x00 xd4 x40 x00 x08 [] eq_refl) as (Ht & _ & _).
  eexists. split; [vm_compute; reflexivity |].
  split; [reflexivity |].
  eapply Ht. vm_compute. reflexivity.
Defined.

(** ** Construction *)

Lemma sht31_new_run (sda scl : PinName) (w : world) :
  sht31_new sda scl w
  = (Undef,
     {| env := {| responses := responses w; trace := trace w ++ construction_io |};
        this := {| _i2c := (sda, scl);
                   _i2c_address := 0x88;
                   _humidity := None;
                   _temperature := None |} |}).
Proof.
  destruct w as [rs tr]. unfold sht31_new, construction_io.
  cbn.
  unfold emit; cbn. rewrite <- !app_assoc. reflexivity.
Qed.

(** C7, as stated, fails: the constructor never sends the clear-status
    opcode 0x3041. What follows the reset is the read-status command. *)
Lemma construction_sends_no_status_clear :
  opcodes_written
    (trace (env (snd (sht31_new 0 1 {| responses := [[x80]; [x10]]; trace := [] |}))))
  = [SHT31_SOFTRESET; SHT31_READSTATUS]
  /\ ~ In SHT31_CLEARSTATUS
       (opcodes_written
          (trace (env (snd (sht31_new 0 1 {| responses := [[x80]; [x10]]; trace := [] |}))))).
Proof.
  rewrite sht31_new_run. split; [reflexivity |].
  cbn. unfold SHT31_CLEARSTATUS. intros [H | [H | []]]; discriminate.
Qed.

(** C7. At construction the driver performs a soft reset, waits 10 ms and
    issues a status read: what it does to the outside is, in this order, the
    write of opcode 0x30A2, a wait of 10 ms and the write of opcode 0xF32D,
    both writes at address 0x44 shifted by one. The clear-status opcode is
    not among the commands sent. *)
Theorem construction_resets_then_reads_status (sda scl : PinName) (w : world) :
  trace (env (snd (sht31_new sda scl w)))
  = trace w
    ++ [I2C_write (Z.shiftl SHT31_DEFAULT_ADDR 1) (wire_bytes SHT31_SOFTRESET);
        Wait_ms 10;
        I2C_write (Z.shiftl SHT31_DEFAULT_ADDR 1) (wire_bytes SHT31_READSTATUS)]
  /\ opcodes_written construction_io = [SHT31_SOFTRESET; SHT31_READSTATUS]
  /\ ~ In SHT31_CLEARSTATUS (opcodes_written construction_io).
Proof.
  rewrite sht31_new_run. split; [reflexivity |]. split; [reflexivity |].
  cbn. unfold SHT31_CLEARSTATUS. intros [H | [H | []]]; discriminate.
Qed.

(** C10. The status read of the constructor is unsound. [read_status] hands
    the pointer [val], which never received a value, to the bus as receive
    buffer: whatever the device would deliver, the call has undefined
    behaviour right after the read-status command was written, no byte of a
    response reaches a buffer and no status value is returned. The
    constructor runs into this on every construction. The same body with
    [val] pointing to a one-byte buffer returns the two delivered bytes as a
    big-endian word. *)
Theorem status_read_through_indeterminate_pointer :
  (forall s : state,
      read_status s
      = (Undef, emit (I2C_write (_i2c_address (this s)) (wire_bytes SHT31_READSTATUS)) s))
  /\ (forall (s : state) (status : Z) (s' : state), read_status s <> (Ret status, s'))
  /\ (forall (sda scl : PinName) (w : world),
         fst (sht31_new sda scl w) = Undef
         /\ responses (env (snd (sht31_new sda scl w))) = responses w)
  /\ (forall (s : state) (msb lsb : byte) (rest : list (list byte)),
         responses (env s) = [msb] :: [lsb] :: rest ->
         fst (read_status_from (Buffer [None]) s) = Ret (big_endian_word msb lsb)).
Proof.
  split; [| split; [| split]].
  - reflexivity.
  - intros s status s'. discriminate.
  - intros sda scl w. now rewrite sht31_new_run.
  - intros [[rs tr] drv] msb lsb rest. cbn [env responses]. intros ->.
    enough (E : exists s', read_status_from (Buffer [None])
                             {| env := {| responses := [msb] :: [lsb] :: rest; trace := tr |};
                                this := drv |}
                           = (Ret (big_endian_word msb lsb), s'))
      by (destruct E as [s' ->]; reflexivity).
    eexists. unfold read_status_from.
    step. step. step. step. step. step.
    cbn [store firstn]. rewrite <- (uint16_big_endian msb lsb).
    unfold ret, uint16_t.
    rewrite (Z.mod_small (Z.shiftl (char_to_int msb) 8)); [reflexivity |].
    pose proof (char_to_int_range msb).
    rewrite Z.shiftl_mul_pow2 by lia. change (2 ^ 8) with 256. change (2 ^ 16) with 65536.
    lia.
Qed.

Lemma status_read_through_indeterminate_pointer_witness :
  fst (read_status (fresh [[x80]; [x10]])) = Undef
  /\ fst (sht31_new 0 1 {| responses := [[x80]; [x10]]; trace := [] |}) = Undef
  /\ fst (read_status_from (Buffer [None]) (fresh [[x80]; [x10]])) = Ret 0x8010.
Proof.
  destruct status_read_through_indeterminate_pointer as (Hundef & _ & Hnew & Hvalid).
  split; [now rewrite Hundef |].
  split; [apply Hnew |].
  apply (Hvalid (fresh [[x80]; [x10]]) x80 x10 []). reflexivity.
Defined.

(** ** The commands on the bus *)

Create HintDb bus_discipline.

Lemma preserves_ret {A : Type} (a : A) : preserves (ret a).
Proof. intros s Hs. exact Hs. Qed.

Lemma preserves_undefined {A : Type} : preserves (@undefined A).
Proof. intros s Hs. exact Hs. Qed.

Lemma preserves_defined {A : Type} (o : option A) : preserves (defined o).
Proof. destruct o; [apply preserves_ret | apply preserves_undefined]. Qed.

Lemma preserves_load (buf : list cell) (i : nat) : preserves (load buf i).
Proof. apply preserves_defined. Qed.

Lemma preserves_bind {A B : Type} (m : M A) (k : A -> M B) :
  preserves m -> (forall a, preserves (k a)) -> preserves (bind m k).
Proof.
  intros Hm Hk s Hs. unfold bind.
  specialize (Hm s Hs). destruct (m s) as [[a | msg |] s1]; cbn [snd] in *.
  - now apply Hk.
  - exact Hm.
  - exact Hm.
Qed.

Lemma well_addressed_emit (e : event) (s : state) :
  listed_write e = true -> well_addressed s -> well_addressed (emit e s).
Proof.
  intros He [Ha Htr]. split; [exact Ha |].
  cbn [emit env trace]. apply Forall_app. split; [exact Htr |].
  constructor; [exact He | constructor].
Qed.

Lemma preserves_write_command (cmd : Z) :
  In cmd listed_opcodes -> preserves (write_command cmd).
Proof.
  intros Hcmd s Hs. rewrite write_command_run. cbn [snd].
  apply well_addressed_emit; [| exact Hs].
  destruct Hs as [-> _].
  destruct Hcmd as [<- | [<- | [<- | []]]]; reflexivity.
Qed.

Lemma preserves_wait_ms (ms : Z) : preserves (wait_ms ms).
Proof. intros s Hs. now apply well_addressed_emit. Qed.

Lemma preserves_hard_fault {A : Type} (msg : string) : preserves (@hard_fault A msg).
Proof. intros s Hs. now apply well_addressed_emit. Qed.

Lemma preserves_get_i2c_address : preserves get_i2c_address.
Proof. intros s Hs. exact Hs. Qed.

Lemma preserves_i2c_read (address : Z) (data : pointer) (length : nat) :
  preserves (i2c_read address data length).
Proof.
  intros s Hs. unfold i2c_read.
  destruct data as [| cells]; [exact Hs |].
  destruct (length <=? List.length cells)%nat; [| exact Hs].
  assert (Hnext : well_addressed (snd (next_response s))).
  { unfold next_response. destruct (responses (env s)); exact Hs. }
  destruct (next_response s) as [r s1]. now apply well_addressed_emit.
Qed.

Lemma preserves_store_fields (f : state -> state) :
  (forall s, env (f s) = env s) ->
  (forall s, _i2c_address (this (f s)) = _i2c_address (this s)) ->
  preserves (fun s => (Ret tt, f s)).
Proof.
  intros Henv Haddr s [Ha Htr]. split; cbn [snd].
  - now rewrite Haddr.
  - now rewrite Henv.
Qed.

#[local] Hint Resolve preserves_ret preserves_undefined preserves_defined
  preserves_load preserves_wait_ms preserves_hard_fault preserves_get_i2c_address
  preserves_i2c_read : bus_discipline.

Lemma preserves_read_temperature_humidity : preserves read_temperature_humidity.
Proof.
  unfold read_temperature_humidity.
  apply preserves_bind; [apply preserves_write_command; cbn; tauto | intros _].
  repeat (apply preserves_bind; [auto with bus_discipline | intros ?]).
  destruct (negb _); [auto with bus_discipline |].
  repeat (apply preserves_bind; [auto with bus_discipline | intros ?]).
  destruct (negb _); [auto with bus_discipline |].
  apply preserves_bind; [now apply preserves_store_fields | intros _].
  apply preserves_bind; [now apply preserves_store_fields | intros _].
  auto with bus_discipline.
Qed.

Lemma preserves_perform (c : call) : preserves (perform c).
Proof.
  destruct c; cbn [perform]; unfold read_temperature, read_humidity.
  - apply preserves_bind; [apply preserves_read_temperature_humidity | intros ok].
    apply preserves_bind; [destruct (negb ok); auto with bus_discipline | intros _].
    intros s Hs. now apply preserves_defined.
  - apply preserves_bind; [apply preserves_read_temperature_humidity | intros ok].
    apply preserves_bind; [destruct (negb ok); auto with bus_discipline | intros _].
    intros s Hs. now apply preserves_defined.
Qed.

Lemma preserves_perform_all (cs : list call) : preserves (perform_all cs).
Proof.
  induction cs as [| c cs IH]; cbn [perform_all].
  - apply preserves_ret.
  - apply preserves_bind; [apply preserves_perform | intros v].
    apply preserves_bind; [exact IH | intros vs].
    apply preserves_ret.
Qed.

Lemma well_addressed_sht31_new (sda scl : PinName) (w : world) :
  Forall (fun e => listed_write e = true) (trace w) ->
  well_addressed (snd (sht31_new sda scl w)).
Proof.
  intros Hw. rewrite sht31_new_run. split; [reflexivity |].
  cbn [snd env trace]. apply Forall_app. split; [exact Hw |].
  repeat constructor.
Qed.

(** C8. In every execution, every command written to the bus is one of the
    three opcodes 0x30A2, 0xF32D and 0x2400, sent as two bytes, most
    significant first, to address 0x44 shifted by one. This holds of the
    trace construction leaves, of the trace after any sequence of accessor
    calls on a driver that holds the constructed address, however each call
    ends and whatever the device answers, and so of every session; the
    constructor writes exactly 0x30A2 then 0xF32D and an acquisition exactly
    0x2400. *)
Theorem only_listed_opcodes_are_written
    (sda scl : PinName) (cs : list call) (w : world) :
  Forall (fun e => listed_write e = true) (trace w) ->
  well_addressed (snd (sht31_new sda scl w))
  /\ well_addressed (snd (perform_all cs (snd (sht31_new sda scl w))))
  /\ well_addressed (snd (session sda scl cs w))
  /\ (forall s : state, well_addressed s -> well_addressed (snd (perform_all cs s)))
  /\ opcodes_written construction_io = [0x30A2; 0xF32D]
  /\ (forall address : Z, opcodes_written (measurement_io address) = [0x2400]).
Proof.
  intros Hw.
  pose proof (well_addressed_sht31_new sda scl _ Hw) as Hnew.
  split; [exact Hnew |].
  split; [now apply preserves_perform_all |].
  split.
  - unfold session. destruct (sht31_new sda scl w) as [[[] | msg |] s1]; cbn [snd] in *.
    + now apply preserves_perform_all.
    + exact Hnew.
    + exact Hnew.
  - split; [intros s; apply preserves_perform_all |].
    split; reflexivity.
Qed.

Lemma only_listed_opcodes_are_written_witness :
  well_addressed
    (snd (perform_all [Call_read_temperature; Call_read_humidity]
            (snd (sht31_new 0 1 {| responses := [frame 0x6000 0x4000; frame 0 0xFFFF];
                                   trace := [] |}))))
  /\ opcodes_written
       (trace (env (snd (perform_all [Call_read_temperature; Call_read_humidity]
            (snd (sht31_new 0 1 {| responses := [frame 0x6000 0x4000; frame 0 0xFFFF];
                                   trace := [] |}))))))
     = [0x30A2; 0xF32D; 0x2400; 0x2400].
Proof.
  split.
  - destruct (only_listed_opcodes_are_written 0 1
                [Call_read_temperature; Call_read_humidity]
                {| responses := [frame 0x6000 0x4000; frame 0 0xFFFF]; trace := [] |}
                (Forall_nil _)) as (_ & H & _).
    exact H.
  - vm_compute. reflexivity.
Defined.

(** ** Acquisition, whatever the device answers *)

Lemma crc8_loop_done (data : list cell) (r : Z) : crc8_loop 0 data r = Some r.
Proof. reflexivity. Qed.

Lemma fold_left_two {A B : Type} (f : A -> B -> A) (x y : B) (a : A) :
  fold_left f [x; y] a = f (f a x) y.
Proof. reflexivity. Qed.

Transparent crc8.

(** The checksum of a word whose two cells head any buffer. *)
Lemma crc8_two_cells (b0 b1 : byte) (tail : list cell) :
  crc8 (Some (char_to_int b0) :: Some (char_to_int b1) :: tail) 2
  = Some (Spec.crc8 [b0; b1]).
Proof.
  unfold crc8, Spec.crc8.
  change (2 <? 0) with false. cbv iota.
  change (Z.to_nat 2) with 2%nat.
  rewrite crc8_loop_cons, byte_step_source by lia.
  rewrite crc8_loop_cons, byte_step_source by apply byte_step_range.
  rewrite crc8_loop_done, fold_left_two.
  reflexivity.
Qed.

Opaque crc8.

Ltac stop :=
  lazymatch goal with
  | |- bind ?m ?k ?s = _ => rewrite (bind_Undef m k s _ eq_refl)
  end.

(** The bus transaction of an acquisition, whatever comes back. *)
Ltac acquire :=
  unfold read_temperature_humidity;
  rewrite (bind_Ret _ _ _ _ tt (measurement_command _));
  step; step; step;
  cbn [store firstn repeat];
  unfold measured, measurement_io, emit; cbn [env this responses trace];
  rewrite <- ?app_assoc; cbn [app].

Lemma read_temperature_humidity_silent (s : state) :
  responses (env s) = [] ->
  read_temperature_humidity s = (Undef, measured s []).
Proof.
  destruct s as [[rs tr] drv]. cbn [env responses]. intros ->.
  acquire. stop. reflexivity.
Qed.

(** What one acquisition does with any response. *)
Lemma read_temperature_humidity_any (s : state) (r : list byte)
    (rest : list (list byte)) :
  responses (env s) = r :: rest ->
  read_temperature_humidity s
  = match r with
    | b0 :: b1 :: b2 :: tail =>
        if char_to_int b2 =? Spec.crc8 [b0; b1]
        then match tail with
             | b3 :: b4 :: b5 :: _ =>
                 if char_to_int b5 =? Spec.crc8 [b3; b4]
                 then (Ret true,
                       committed (temperature_of_word (big_endian_word b0 b1))
                                 (humidity_of_word (big_endian_word b3 b4))
                                 (measured s rest))
                 else (Ret false, measured s rest)
             | _ => (Undef, measured s rest)
             end
        else (Ret false, measured s rest)
    | _ => (Undef, measured s rest)
    end.
Proof.
  destruct s as [[rs tr] drv]. cbn [env responses]. intros ->.
  destruct r as [| b0 [| b1 [| b2 tail]]].
  - acquire. stop. reflexivity.
  - acquire. step. stop. reflexivity.
  - acquire. step. step. stop. reflexivity.
  - acquire. step. step. step.
    rewrite uint16_big_endian, crc8_two_cells.
    step.
    destruct (char_to_int b2 =? Spec.crc8 [b0; b1]); cbn [negb]; [| reflexivity].
    destruct tail as [| b3 [| b4 [| b5 tail]]]; cbn [store firstn].
    + stop. reflexivity.
    + step. stop. reflexivity.
    + step. step. stop. reflexivity.
    + step. step. step.
      rewrite uint16_big_endian.
      change (skipn 3 ?l) with (Some (char_to_int b3) :: Some (char_to_int b4)
                                  :: [Some (char_to_int b5)]).
      rewrite crc8_two_cells.
      step.
      destruct (char_to_int b5 =? Spec.crc8 [b3; b4]); cbn [negb]; reflexivity.
Qed.



(** X1. Whatever the device answers, also nothing at all, one call of
    [read_temperature_humidity] writes the measurement command, waits 50 ms
    and reads six bytes, in this order and nothing else; it takes one
    response off the bus; it never halts; it leaves the bus handle and the
    address alone; unless it returns true it leaves the whole object, cached
    values included, as it was, and a return of true finds both cached fields
    written. *)
Theorem acquisition_effects_whatever_the_answer (s : state) :
  trace (env (snd (read_temperature_humidity s)))
  = trace (env s) ++ measurement_io (_i2c_address (this s))
  /\ responses (env (snd (read_temperature_humidity s))) = tl (responses (env s))
  /\ _i2c (this (snd (read_temperature_humidity s))) = _i2c (this s)
  /\ _i2c_address (this (snd (read_temperature_humidity s))) = _i2c_address (this s)
  /\ (fst (read_temperature_humidity s) <> Ret true ->
      this (snd (read_temperature_humidity s)) = this s)
  /\ (fst (read_temperature_humidity s) = Ret true ->
      exists t h : float,
        _temperature (this (snd (read_temperature_humidity s))) = Some t
        /\ _humidity (this (snd (read_temperature_humidity s))) = Some h)
  /\ (forall msg : string, fst (read_temperature_humidity s) <> Halt msg).
Proof.
  destruct (responses (env s)) as [| r rest] eqn:Hs.
  - rewrite (read_temperature_humidity_silent s Hs). cbn [fst snd tl].
    repeat split; try reflexivity; try discriminate.
  - rewrite (read_temperature_humidity_any s r rest Hs). cbn [tl].
    destruct r as [| b0 [| b1 [| b2 tail]]];
      try (cbn [fst snd]; repeat split; try reflexivity; discriminate).
    destruct (char_to_int b2 =? Spec.crc8 [b0; b1]);
      [| cbn [fst snd]; repeat split; try reflexivity; discriminate].
    destruct tail as [| b3 [| b4 [| b5 tail]]];
      try (cbn [fst snd]; repeat split; try reflexivity; discriminate).
    destruct (char_to_int b5 =? Spec.crc8 [b3; b4]);
      [| cbn [fst snd]; repeat split; try reflexivity; discriminate].
    cbn [fst snd]. repeat split; try reflexivity; try discriminate.
    + intros H. now elim H.
    + intros _. eexists _, _. split; reflexivity.
Qed.


(** X3. The result of [_i2c.read] is not looked at.
    [read_temperature_humidity] has undefined behaviour, reading cells of
    [readbuffer] that were never written, exactly when the device delivered
    fewer than three bytes, or fewer than six bytes of which the third is the
    checksum of the first two. *)
Theorem acquisition_undefined_iff (s : state) :
  fst (read_temperature_humidity s) = Undef
  <-> (length (hd [] (responses (env s))) < 3)%nat
      \/ (length (hd [] (responses (env s))) < 6)%nat
         /\ crc_matches (nth 0 (hd [] (responses (env s))) x00)
                        (nth 1 (hd [] (responses (env s))) x00)
                        (nth 2 (hd [] (responses (env s))) x00).
Proof.
  destruct (responses (env s)) as [| r rest] eqn:Hs.
  - rewrite (read_temperature_humidity_silent s Hs). cbn. intuition lia.
  - rewrite (read_temperature_humidity_any s r rest Hs). cbn [hd].
    destruct r as [| b0 [| b1 [| b2 tail]]]; try (cbn; intuition lia).
    cbn [nth]. pose proof (crc_matches_eqb b0 b1 b2) as Ht.
    destruct (char_to_int b2 =? Spec.crc8 [b0; b1]).
    + destruct tail as [| b3 [| b4 [| b5 tail]]]; try (cbn; intuition lia).
      destruct (char_to_int b5 =? Spec.crc8 [b3; b4]); cbn [fst length];
        (split; [discriminate | intros [H | [H _]]; lia]).
    + cbn [fst length]. split; [discriminate |].
      intros [H | [_ H]]; [lia |]. apply Ht in H. discriminate.
Qed.



(** ** Sequences of calls *)

Lemma perform_valid (c : call) (s : state) (r : list byte) (rest : list (list byte)) :
  frame_ok r ->
  responses (env s) = r :: rest ->
  perform c s
  = (Ret (reading c r),
     committed (frame_temperature r) (frame_humidity r) (measured s rest)).
Proof.
  intros Hok Hs.
  destruct r as [| b0 [| b1 [| b2 [| b3 [| b4 [| b5 [| b6 r]]]]]]];
    try (exfalso; exact Hok).
  destruct Hok as [Ht Hh].
  destruct c; cbn [perform].
  - rewrite (read_temperature_run s _ _ _ _ _ _ _ Hs), (both_crcs_match _ _ _ _ _ _ Ht Hh).
    reflexivity.
  - rewrite (read_humidity_run s _ _ _ _ _ _ _ Hs), (both_crcs_match _ _ _ _ _ _ Ht Hh).
    reflexivity.
Qed.

Lemma perform_invalid (c : call) (s : state) (r : list byte) (rest : list (list byte)) :
  length r = 6%nat ->
  ~ frame_ok r ->
  responses (env s) = r :: rest ->
  perform c s
  = (Halt (fault_message c), emit (Hard_fault (fault_message c)) (measured s rest)).
Proof.
  destruct r as [| b0 [| b1 [| b2 [| b3 [| b4 [| b5 [| b6 r]]]]]]]; try discriminate.
  intros _ Hbad Hs.
  destruct c; cbn [perform].
  - rewrite (read_temperature_run s _ _ _ _ _ _ _ Hs), (some_crc_mismatches _ _ _ _ _ _ Hbad).
    reflexivity.
  - rewrite (read_humidity_run s _ _ _ _ _ _ _ Hs), (some_crc_mismatches _ _ _ _ _ _ Hbad).
    reflexivity.
Qed.

Lemma perform_all_cons (c : call) (cs : list call) (s : state) :
  perform_all (c :: cs) s
  = match perform c s with
    | (Ret v, s1) =>
        match perform_all cs s1 with
        | (Ret vs, s2) => (Ret (v :: vs), s2)
        | (Halt msg, s2) => (Halt msg, s2)
        | (Undef, s2) => (Undef, s2)
        end
    | (Halt msg, s1) => (Halt msg, s1)
    | (Undef, s1) => (Undef, s1)
    end.
Proof.
  cbn [perform_all]. unfold bind.
  destruct (perform c s) as [[v | msg |] s1]; reflexivity.
Qed.

Lemma acquired_effects (frames rest : list (list byte)) (s : state) :
  responses (env (acquired frames rest s)) = match frames with [] => responses (env s) | _ => rest end
  /\ trace (env (acquired frames rest s))
     = trace (env s)
       ++ concat (repeat (measurement_io (_i2c_address (this s))) (length frames))
  /\ _i2c_address (this (acquired frames rest s)) = _i2c_address (this s)
  /\ match frames with
     | [] => this (acquired frames rest s) = this s
     | _ => _temperature (this (acquired frames rest s))
            = Some (frame_temperature (last frames []))
            /\ _humidity (this (acquired frames rest s))
               = Some (frame_humidity (last frames []))
     end.
Proof.
  revert s. induction frames as [| r frames IH]; intros s.
  - cbn. rewrite app_nil_r. repeat split; reflexivity.
  - cbn [acquired length repeat concat].
    destruct (IH (committed (frame_temperature r) (frame_humidity r)
                    (measured s (frames ++ rest)))) as (Hrs & Htr & Ha & Hc).
    rewrite Hrs, Htr, Ha. clear Hrs Htr Ha.
    split; [destruct frames; [apply app_nil_l | reflexivity] |].
    split; [cbn; now rewrite <- app_assoc |].
    split; [reflexivity |].
    destruct frames as [| r' frames]; [now rewrite Hc | exact Hc].
Qed.

Lemma perform_all_valid (cs : list call) (frames rest : list (list byte)) (s : state) :
  length cs = length frames ->
  Forall frame_ok frames ->
  responses (env s) = frames ++ rest ->
  perform_all cs s = (Ret (readings cs frames), acquired frames rest s).
Proof.
  revert frames s.
  induction cs as [| c cs IH]; intros [| r frames] s Hlen Hok Hs; try discriminate.
  - reflexivity.
  - inversion Hok as [| ? ? Hr Hframes]; subst.
    rewrite perform_all_cons.
    rewrite (perform_valid c s r (frames ++ rest) Hr Hs).
    erewrite IH; [reflexivity | now injection Hlen | exact Hframes | reflexivity].
Qed.

Lemma perform_all_halts (cs1 cs2 : list call) (c : call)
    (good : list (list byte)) (bad : list byte) (rest : list (list byte)) (s : state) :
  length cs1 = length good ->
  Forall frame_ok good ->
  length bad = 6%nat ->
  ~ frame_ok bad ->
  responses (env s) = good ++ bad :: rest ->
  perform_all (cs1 ++ c :: cs2) s
  = (Halt (fault_message c),
     emit (Hard_fault (fault_message c))
          (measured (acquired good (bad :: rest) s) rest)).
Proof.
  intros Hlen Hok H6 Hbad. revert good s Hlen Hok.
  induction cs1 as [| c1 cs1 IH]; intros [| r good] s Hlen Hok Hs; try discriminate.
  - cbn [app acquired]. rewrite perform_all_cons.
    now rewrite (perform_invalid c s bad rest H6 Hbad Hs).
  - inversion Hok as [| ? ? Hr Hgood]; subst.
    cbn [app acquired]. rewrite perform_all_cons.
    rewrite (perform_valid c1 s r (good ++ bad :: rest) Hr Hs).
    erewrite IH; [reflexivity | now injection Hlen | exact Hgood | reflexivity].
Qed.

(** X5. Calls compose without caching: a sequence of accessor calls, met by
    as many six-byte responses with matching checksums, returns the reading
    each call asked for from the response of its turn, performs one full bus
    transaction per call, leaves the remaining responses untouched and ends
    with the conversions of the last response cached. *)
Theorem calls_on_valid_frames (cs : list call) (frames rest : list (list byte)) (s : state) :
  length cs = length frames ->
  Forall frame_ok frames ->
  responses (env s) = frames ++ rest ->
  exists s' : state,
    perform_all cs s = (Ret (readings cs frames), s')
    /\ responses (env s') = rest
    /\ trace (env s')
       = trace (env s)
         ++ concat (repeat (measurement_io (_i2c_address (this s))) (length frames))
    /\ _i2c_address (this s') = _i2c_address (this s)
    /\ (frames <> [] ->
        _temperature (this s') = Some (frame_temperature (last frames []))
        /\ _humidity (this s') = Some (frame_humidity (last frames []))).
Proof.
  intros Hlen Hok Hs. exists (acquired frames rest s).
  split; [now apply perform_all_valid |].
  destruct (acquired_effects frames rest s) as (Hrs & Htr & Ha & Hc).
  split; [| split; [exact Htr | split; [exact Ha |]]].
  - rewrite Hrs. destruct frames; [exact Hs | reflexivity].
  - intros Hne. destruct frames; [now elim Hne | exact Hc].
Qed.

Lemma calls_on_valid_frames_witness :
  exists s' : state,
    perform_all [Call_read_temperature; Call_read_humidity]
      (fresh [frame 0x6000 0x4000; frame 0 0xFFFF])
    = (Ret [temperature_of_word 0x6000; humidity_of_word 0xFFFF], s')
    /\ responses (env s') = []
    /\ trace (env s') = measurement_io 0x88 ++ measurement_io 0x88.
Proof.
  destruct (calls_on_valid_frames
              [Call_read_temperature; Call_read_humidity]
              [frame 0x6000 0x4000; frame 0 0xFFFF] []
              (fresh [frame 0x6000 0x4000; frame 0 0xFFFF]))
    as (s' & Hrun & Hrs & Htr & _).
  - reflexivity.
  - repeat constructor; vm_compute; reflexivity.
  - reflexivity.
  - exists s'. split; [exact Hrun |]. split; [exact Hrs |]. exact Htr.
Defined.

(** X6. A sequence of calls stops at the first response whose checksums do
    not match: the call of that turn halts with its own message after its bus
    transaction, no later call touches the bus or the remaining responses,
    and the cache is the one the last accepted response left. *)
Theorem calls_stop_at_first_bad_frame (cs1 cs2 : list call) (c : call)
    (good : list (list byte)) (bad : list byte) (rest : list (list byte)) (s : state) :
  length cs1 = length good ->
  Forall frame_ok good ->
  length bad = 6%nat ->
  ~ frame_ok bad ->
  responses (env s) = good ++ bad :: rest ->
  exists s' : state,
    perform_all (cs1 ++ c :: cs2) s = (Halt (fault_message c), s')
    /\ responses (env s') = rest
    /\ trace (env s')
       = trace (env s)
         ++ concat (repeat (measurement_io (_i2c_address (this s))) (length good))
         ++ measurement_io (_i2c_address (this s))
         ++ [Hard_fault (fault_message c)]
    /\ (good = [] -> this s' = this s)
    /\ (good <> [] ->
        _temperature (this s') = Some (frame_temperature (last good []))
        /\ _humidity (this s') = Some (frame_humidity (last good []))).
Proof.
  intros Hlen Hok H6 Hbad Hs. eexists. split.
  - exact (perform_all_halts cs1 cs2 c good bad rest s Hlen Hok H6 Hbad Hs).
  - destruct (acquired_effects good (bad :: rest) s) as (Hrs & Htr & Ha & Hc).
    cbn [emit measured env this responses trace].
    rewrite Htr, Ha, <- !app_assoc.
    split; [reflexivity |]. split; [reflexivity |].
    split.
    + intros ->. exact Hc.
    + intros Hne. destruct good; [now elim Hne | exact Hc].
Qed.

Lemma calls_stop_at_first_bad_frame_witness :
  exists s' : state,
    perform_all ([Call_read_temperature] ++ Call_read_humidity :: [Call_read_temperature])
      (fresh ([frame 0x6000 0x4000] ++ [x00; x00; x81; x00; x00; x00] :: [frame 0 0]))
    = (Halt "SHT31 HUMIDITY CRC FAIL", s')
    /\ responses (env s') = [frame 0 0]
    /\ _temperature (this s') = Some (temperature_of_word 0x6000).
Proof.
  destruct (calls_stop_at_first_bad_frame
              [Call_read_temperature] [Call_read_temperature] Call_read_humidity
              [frame 0x6000 0x4000] [x00; x00; x81; x00; x00; x00] [frame 0 0]
              (fresh ([frame 0x6000 0x4000] ++ [x00; x00; x81; x00; x00; x00] :: [frame 0 0])))
    as (s' & Hrun & Hrs & _ & _ & Hc).
  - reflexivity.
  - repeat constructor; vm_compute; reflexivity.
  - reflexivity.
  - vm_compute. intros [_ H]. discriminate.
  - reflexivity.
  - exists s'. split; [exact Hrun |]. split; [exact Hrs |].
    apply Hc. discriminate.
Defined.

(** ** Error detection *)

Lemma byte_step_rounds (r : Z) (b : byte) :
  Spec.byte_step r b = rounds (Z.lxor r (char_to_int b)).
Proof. unfold Spec.byte_step, rounds. reflexivity. Qed.

Lemma rounds_range (x : Z) : 0 <= rounds x < 256.
Proof. unfold rounds. cbn [Nat.iter nat_rect]. apply shift_step_range. Qed.

Lemma split_word (a b : Z) :
  0 <= a < 256 -> 0 <= b < 256 ->
  0 <= 256 * a + b < 65536 /\ (256 * a + b) / 256 = a /\ (256 * a + b) mod 256 = b.
Proof.
  intros Ha Hb. split; [lia |]. split.
  - rewrite Z.mul_comm, Z.div_add_l by lia. rewrite Z.div_small by lia. lia.
  - rewrite Z.add_comm, Z.mul_comm, Z.mod_add by lia. now apply Z.mod_small.
Qed.

(** The rounds are linear over GF(2). *)
Lemma rounds_linear (a b : Z) :
  0 <= a < 256 -> 0 <= b < 256 ->
  rounds (Z.lxor a b) = Z.lxor (rounds a) (rounds b).
Proof.
  intros Ha Hb.
  assert (H : forallb (fun w =>
                rounds (Z.lxor (w / 256) (w mod 256))
                =? Z.lxor (rounds (w / 256)) (rounds (w mod 256)))
                all_words = true) by (vm_compute; reflexivity).
  destruct (split_word a b Ha Hb) as (Hw & Hq & Hr).
  apply (for_all_words _ H) in Hw. cbv beta in Hw.
  rewrite Hq, Hr in Hw. now apply Z.eqb_eq.
Qed.

(** They send no register but zero to zero. *)
Lemma rounds_zero (x : Z) : 0 <= x < 256 -> rounds x = 0 -> x = 0.
Proof.
  intros Hx.
  assert (H : forallb (fun w => (256 <=? w) || (w =? 0) || negb (rounds w =? 0))
                all_words = true) by (vm_compute; reflexivity).
  assert (Hw : 0 <= x < 65536) by lia.
  apply (for_all_words _ H) in Hw. cbv beta in Hw.
  destruct (Z.leb_spec 256 x); [lia |].
  destruct (Z.eqb_spec x 0); [easy |].
  destruct (Z.eqb_spec (rounds x) 0); [discriminate | easy].
Qed.

Lemma crc8_snoc (data : list byte) (c : byte) :
  Spec.crc8 (data ++ [c]) = rounds (Z.lxor (Spec.crc8 data) (char_to_int c)).
Proof.
  unfold Spec.crc8. rewrite fold_left_app.
  change (fold_left Spec.byte_step [c] ?r) with (Spec.byte_step r c).
  apply byte_step_rounds.
Qed.

(** X7. The checksum has no final XOR, so a group that carries its own
    checksum has checksum zero: [crc8] over a run of bytes and the byte after
    it is 0 exactly when that byte is the [crc8] of the run. *)
Theorem crc8_of_a_checked_group_is_zero (data : list byte) (c : byte) (rest : list byte) :
  crc8 (cells_of_bytes (data ++ c :: rest)) (Z.of_nat (length data) + 1) = Some 0
  <-> crc8 (cells_of_bytes (data ++ c :: rest)) (Z.of_nat (length data))
      = Some (char_to_int c).
Proof.
  rewrite (crc8_prefix data (c :: rest)).
  replace (data ++ c :: rest) with ((data ++ [c]) ++ rest)
    by (now rewrite <- app_assoc).
  replace (Z.of_nat (length data) + 1) with (Z.of_nat (length (data ++ [c])))
    by (rewrite length_app; cbn [length]; lia).
  rewrite (crc8_prefix (data ++ [c]) rest), crc8_snoc.
  pose proof (spec_crc8_from_range data 0xFF ltac:(lia)) as Hcrc.
  fold (Spec.crc8 data) in Hcrc.
  pose proof (char_to_int_range c) as Hc.
  split.
  - intros [= H]. apply rounds_zero in H; [| now apply lxor_byte_range].
    apply Z.lxor_eq in H. now rewrite H.
  - intros [= ->]. now rewrite Z.lxor_nilpotent.
Qed.

Lemma char_xor_byte (e : Z) (b : byte) :
  0 <= e < 256 -> char_to_int (xor_byte e b) = Z.lxor (char_to_int b) e.
Proof.
  intros He. unfold xor_byte. apply char_of_byte.
  apply lxor_byte_range; [apply char_to_int_range | exact He].
Qed.

Lemma crc8_two_rounds (b0 b1 : byte) :
  Spec.crc8 [b0; b1]
  = rounds (Z.lxor (rounds (Z.lxor 0xFF (char_to_int b0))) (char_to_int b1)).
Proof.
  unfold Spec.crc8. rewrite fold_left_two, !byte_step_rounds. reflexivity.
Qed.

(** Bit errors in a word move its checksum by their syndrome. *)
Lemma crc8_two_xor (e0 e1 : Z) (b0 b1 : byte) :
  0 <= e0 < 256 -> 0 <= e1 < 256 ->
  Spec.crc8 [xor_byte e0 b0; xor_byte e1 b1]
  = Z.lxor (Spec.crc8 [b0; b1]) (syndrome e0 e1).
Proof.
  intros H0 H1.
  pose proof (char_to_int_range b0) as Hb0.
  pose proof (char_to_int_range b1) as Hb1.
  rewrite !crc8_two_rounds, !char_xor_byte by assumption.
  unfold syndrome.
  rewrite <- (Z.lxor_assoc 0xFF (char_to_int b0) e0).
  rewrite (rounds_linear (Z.lxor 0xFF (char_to_int b0)) e0)
    by (try apply lxor_byte_range; lia).
  set (r1 := rounds (Z.lxor 0xFF (char_to_int b0))).
  assert (Hr1 : 0 <= r1 < 256) by apply rounds_range.
  pose proof (rounds_range e0) as Ht0.
  replace (Z.lxor (Z.lxor r1 (rounds e0)) (Z.lxor (char_to_int b1) e1))
    with (Z.lxor (Z.lxor r1 (char_to_int b1)) (Z.lxor (rounds e0) e1)).
  - apply rounds_linear; apply lxor_byte_range; assumption.
  - rewrite !Z.lxor_assoc. f_equal.
    rewrite <- !Z.lxor_assoc. f_equal. apply Z.lxor_comm.
Qed.

(** Every error that keeps a word and its checksum consistent flips at least
    four bits and spreads over more than eight positions. *)
Lemma undetected_errors_are_large (e0 e1 : Z) :
  0 <= e0 < 256 -> 0 <= e1 < 256 ->
  error_mask e0 e1 (syndrome e0 e1) <> 0 ->
  4 <= popcount (error_mask e0 e1 (syndrome e0 e1))
  /\ 9 <= span (error_mask e0 e1 (syndrome e0 e1)).
Proof.
  intros H0 H1 Hne.
  assert (H : forallb (fun w =>
                let m := error_mask (w / 256) (w mod 256)
                           (syndrome (w / 256) (w mod 256)) in
                (m =? 0) || ((4 <=? popcount m) && (9 <=? span m)))
                all_words = true) by (vm_compute; reflexivity).
  destruct (split_word e0 e1 H0 H1) as (Hw & Hq & Hr).
  apply (for_all_words _ H) in Hw. cbv beta zeta in Hw.
  rewrite Hq, Hr in Hw.
  destruct (Z.eqb_spec (error_mask e0 e1 (syndrome e0 e1)) 0); [contradiction |].
  cbn [orb] in Hw. apply andb_true_iff in Hw. destruct Hw as [Hp Hsp].
  split; now apply Z.leb_le.
Qed.

(** Up to three flipped bits, or a burst of up to eight, in a word and its
    checksum never go unnoticed. *)
Lemma small_errors_break_the_checksum (e0 e1 e2 : Z) (b0 b1 b2 : byte) :
  0 <= e0 < 256 -> 0 <= e1 < 256 -> 0 <= e2 < 256 ->
  error_mask e0 e1 e2 <> 0 ->
  popcount (error_mask e0 e1 e2) <= 3 \/ span (error_mask e0 e1 e2) <= 8 ->
  crc_matches b0 b1 b2 ->
  ~ crc_matches (xor_byte e0 b0) (xor_byte e1 b1) (xor_byte e2 b2).
Proof.
  intros H0 H1 H2 Hne Hsmall Hok Hbad.
  apply crc_matches_eqb, Z.eqb_eq in Hok, Hbad.
  rewrite char_xor_byte, crc8_two_xor, Hok in Hbad by assumption.
  assert (He2 : e2 = syndrome e0 e1).
  { apply (f_equal (Z.lxor (Spec.crc8 [b0; b1]))) in Hbad.
    now rewrite <- !Z.lxor_assoc, Z.lxor_nilpotent, !Z.lxor_0_l in Hbad. }
  subst e2.
  destruct (undetected_errors_are_large e0 e1 H0 H1 Hne). lia.
Qed.

(** X8. Up to three inverted bits, or a burst of inverted bits up to eight
    positions long, anywhere in a word and its checksum byte are always
    detected: a response that differs in this way from one with a matching
    checksum, in its temperature group or in its humidity group, makes
    [read_temperature_humidity] return false and leaves the cache alone. *)
Theorem acquisition_rejects_small_corruptions
    (s : state) (e0 e1 e2 : Z) (b0 b1 b2 b3 b4 b5 : byte) (rest : list (list byte)) :
  0 <= e0 < 256 -> 0 <= e1 < 256 -> 0 <= e2 < 256 ->
  error_mask e0 e1 e2 <> 0 ->
  popcount (error_mask e0 e1 e2) <= 3 \/ span (error_mask e0 e1 e2) <= 8 ->
  crc_matches b0 b1 b2 ->
  ~ crc_matches (xor_byte e0 b0) (xor_byte e1 b1) (xor_byte e2 b2)
  /\ (responses (env s)
      = [xor_byte e0 b0; xor_byte e1 b1; xor_byte e2 b2; b3; b4; b5] :: rest ->
      read_temperature_humidity s = (Ret false, measured s rest))
  /\ (responses (env s)
      = [b3; b4; b5; xor_byte e0 b0; xor_byte e1 b1; xor_byte e2 b2] :: rest ->
      read_temperature_humidity s = (Ret false, measured s rest)).
Proof.
  intros H0 H1 H2 Hne Hsmall Hok.
  pose proof (small_errors_break_the_checksum e0 e1 e2 b0 b1 b2
                H0 H1 H2 Hne Hsmall Hok) as Hbad.
  split; [exact Hbad |].
  rewrite crc_matches_eqb in Hbad. apply not_true_is_false in Hbad.
  split; intros Hs; rewrite (read_temperature_humidity_run s _ _ _ _ _ _ _ Hs), Hbad.
  - reflexivity.
  - now rewrite andb_false_r.
Qed.

Lemma acquisition_rejects_small_corruptions_witness :
  ~ crc_matches (xor_byte 0x01 x60) (xor_byte 0x80 x00) (xor_byte 0x40 xd4)
  /\ read_temperature_humidity
       (holding 21 40 [[x61; x80; x94; x40; x00; x08]])
     = (Ret false, measured (holding 21 40 [[x61; x80; x94; x40; x00; x08]]) []).
Proof.
  destruct (acquisition_rejects_small_corruptions
              (holding 21 40 [[x61; x80; x94; x40; x00; x08]])
              0x01 0x80 0x40 x60 x00 xd4 x40 x00 x08 [])
    as (Hbad & Hrun & _).
  - lia.
  - lia.
  - lia.
  - vm_compute. discriminate.
  - left. vm_compute. discriminate.
  - unfold crc_matches. rewrite crc8_two. vm_compute. reflexivity.
  - split; [exact Hbad |]. apply Hrun. reflexivity.
Defined.

(** ** Bounds of [crc8] *)

Lemma crc8_loop_stops_short (j : nat) (r : Z) : crc8_loop (S j) [] r = None.
Proof. reflexivity. Qed.

Lemma crc8_loop_stops_blank (j : nat) (data : list cell) (r : Z) :
  crc8_loop (S j) (None :: data) r = None.
Proof. reflexivity. Qed.

Lemma crc8_bits_range (x : Z) : 0 <= crc8_bits 8 x < 256.
Proof.
  rewrite crc8_bits_iter. cbn [Nat.iter nat_rect]. apply shift_step_range.
Qed.

Lemma crc8_loop_defined (j : nat) (data : list cell) (r : Z) :
  crc8_loop j data r <> None
  <-> (j <= length data)%nat /\ forall i, (i < j)%nat -> nth i data None <> None.
Proof.
  revert data r. induction j as [| j IH]; intros data r.
  - rewrite crc8_loop_done. split; [| discriminate].
    intros _. split; [lia |]. intros i Hi. lia.
  - destruct data as [| [d |] data].
    + rewrite crc8_loop_stops_short. cbn [length]. split; [easy | lia].
    + rewrite crc8_loop_cons, IH. cbn [length]. split.
      * intros [Hlen Hinit]. split; [lia |].
        intros [| i] Hi; cbn [nth]; [discriminate | apply Hinit; lia].
      * intros [Hlen Hinit]. split; [lia |].
        intros i Hi. apply (Hinit (S i)). lia.
    + rewrite crc8_loop_stops_blank. split; [easy |].
      intros [_ Hinit] _. exact (Hinit 0%nat ltac:(lia) eq_refl).
Qed.

Lemma crc8_loop_range (j : nat) (data : list cell) (r c : Z) :
  0 <= r < 256 -> crc8_loop j data r = Some c -> 0 <= c < 256.
Proof.
  revert data r. induction j as [| j IH]; intros data r Hr.
  - rewrite crc8_loop_done. now intros [= <-].
  - destruct data as [| [d |] data].
    + rewrite crc8_loop_stops_short. discriminate.
    + rewrite crc8_loop_cons. apply IH, crc8_bits_range.
    + rewrite crc8_loop_stops_blank. discriminate.
Qed.

Transparent crc8.

(** X9. Bounds of [crc8]: with [len] 0 it returns 0xFF without reading; it
    is defined exactly when [len] is not negative and the first [len] cells
    exist and were all written; and whatever the cells hold, its result is a
    byte. *)
Theorem crc8_bounds (data : list cell) (len : Z) :
  (len = 0 -> crc8 data len = Some 0xFF)
  /\ (crc8 data len <> None
      <-> 0 <= len
          /\ (Z.to_nat len <= length data)%nat
          /\ forall i, (i < Z.to_nat len)%nat -> nth i data None <> None)
  /\ (forall c : Z, crc8 data len = Some c -> 0 <= c < 256).
Proof.
  unfold crc8. split; [| split].
  - intros ->. reflexivity.
  - destruct (Z.ltb_spec len 0) as [Hneg | Hpos].
    + split; [easy | lia].
    + rewrite crc8_loop_defined. intuition.
  - intros c. destruct (Z.ltb_spec len 0); [discriminate |].
    apply crc8_loop_range. lia.
Qed.

Opaque crc8.

(** ** Command encoding *)

Lemma opcodes_written_app (tr1 tr2 : list event) :
  opcodes_written (tr1 ++ tr2) = opcodes_written tr1 ++ opcodes_written tr2.
Proof.
  induction tr1 as [| e tr1 IH]; [reflexivity |].
  destruct e as [a [| hi [| lo [| x data]]] | a n | ms | msg];
    cbn [app opcodes_written]; now rewrite IH.
Qed.

Lemma mod_65536_mod_256 (c : Z) : (c mod 65536) mod 256 = c mod 256.
Proof.
  rewrite (Z.mod_eq c 65536) by lia.
  replace (c - 65536 * (c / 65536)) with (c + (-256 * (c / 65536)) * 256) by lia.
  apply Z.mod_add. lia.
Qed.

Lemma command_bytes (cmd : Z) :
  uint8_t (Z.shiftr (uint16_t cmd) 8) = (cmd mod 65536) / 256
  /\ uint8_t (Z.land (uint16_t cmd) 0xFF) = cmd mod 256.
Proof.
  unfold uint16_t. change (2 ^ 16) with 65536.
  pose proof (Z.mod_pos_bound cmd 65536 ltac:(lia)) as Hc.
  split.
  - rewrite Z.shiftr_div_pow2 by lia. change (2 ^ 8) with 256.
    apply uint8_t_small. split.
    + apply Z.div_pos; lia.
    + apply Z.div_lt_upper_bound; lia.
  - rewrite <- uint8_t_land. unfold uint8_t. change (2 ^ 8) with 256.
    rewrite Z.mod_mod by lia. apply mod_65536_mod_256.
Qed.

(** X10. [write_command] sends, to the address the driver holds, exactly two
    bytes: the high byte and the low byte of its argument reduced modulo
    2^16, in this order, so that reading them back most significant first
    gives that 16-bit opcode. Nothing but the trace changes. *)
Theorem write_command_sends_two_bytes_msb_first (cmd : Z) (s : state) :
  exists hi lo : Z,
    write_command cmd s
    = (Ret tt, emit (I2C_write (_i2c_address (this s)) [hi; lo]) s)
    /\ 0 <= hi < 256
    /\ 0 <= lo < 256
    /\ 256 * hi + lo = cmd mod 65536
    /\ opcodes_written (trace (env (snd (write_command cmd s))))
       = opcodes_written (trace (env s)) ++ [cmd mod 65536].
Proof.
  destruct (command_bytes cmd) as [Hhi Hlo].
  pose proof (Z.mod_pos_bound cmd 65536 ltac:(lia)) as Hc.
  pose proof (Z.mod_pos_bound cmd 256 ltac:(lia)) as Hl.
  assert (Hsum : 256 * (cmd mod 65536 / 256) + cmd mod 256 = cmd mod 65536).
  { rewrite <- (mod_65536_mod_256 cmd).
    symmetry. apply Z.div_mod. lia. }
  exists ((cmd mod 65536) / 256), (cmd mod 256).
  rewrite write_command_run, Hhi, Hlo.
  split; [reflexivity |].
  split; [split; [apply Z.div_pos; lia | apply Z.div_lt_upper_bound; lia] |].
  split; [exact Hl |].
  split; [exact Hsum |].
  cbn [snd emit env trace]. rewrite opcodes_written_app.
  cbn [opcodes_written]. now rewrite Hsum.
Qed.

(** ** Order and range of the conversions *)

Lemma Qlt_bool_lt (a b : Q) : Qlt_bool a b = true -> (a < b)%Q.
Proof.
  unfold Qlt_bool. destruct (a ?= b)%Q eqn:E; try discriminate.
  intros _. now apply Qlt_alt.
Qed.

Lemma conversions_step (w : Z) :
  0 <= w < 65535 ->
  (double_value (temperature_of_word w) < double_value (temperature_of_word (w + 1)))%Q
  /\ (double_value (humidity_of_word w) < double_value (humidity_of_word (w + 1)))%Q.
Proof.
  intros Hw.
  assert (H : forallb (fun w =>
                (w =? 65535)
                || (Qlt_bool (double_value (temperature_of_word w))
                             (double_value (temperature_of_word (w + 1)))
                    && Qlt_bool (double_value (humidity_of_word w))
                                (double_value (humidity_of_word (w + 1)))))
                all_words = true) by (vm_compute; reflexivity).
  assert (Hw' : 0 <= w < 65536) by lia.
  apply (for_all_words _ H) in Hw'. cbv beta in Hw'.
  destruct (Z.eqb_spec w 65535); [lia |]. cbn [orb] in Hw'.
  apply andb_true_iff in Hw'. destruct Hw' as [Ht Hh].
  split; now apply Qlt_bool_lt.
Qed.

Lemma double_value_finite (f : float) (q eps : Q) :
  within eps f q -> Q_of_double f = Some (double_value f).
Proof.
  intros (x & Hx & _). unfold double_value. now rewrite Hx.
Qed.

Lemma conversions_chain (w : Z) (k : nat) :
  0 <= w -> w + 1 + Z.of_nat k < 65536 ->
  (double_value (temperature_of_word w)
   < double_value (temperature_of_word (w + 1 + Z.of_nat k)))%Q
  /\ (double_value (humidity_of_word w)
      < double_value (humidity_of_word (w + 1 + Z.of_nat k)))%Q.
Proof.
  intros Hw. induction k as [| k IH]; intros Hk.
  - rewrite Z.add_0_r. apply conversions_step. lia.
  - destruct IH as [IHt IHh]; [lia |].
    destruct (conversions_step (w + 1 + Z.of_nat k)) as [St Sh]; [lia |].
    replace (w + 1 + Z.of_nat (S k)) with (w + 1 + Z.of_nat k + 1) by lia.
    split; eapply Qlt_trans; eassumption.
Qed.

Lemma conversions_increase (w w' : Z) :
  0 <= w -> w < w' -> w' < 65536 ->
  (double_value (temperature_of_word w) < double_value (temperature_of_word w'))%Q
  /\ (double_value (humidity_of_word w) < double_value (humidity_of_word w'))%Q.
Proof.
  intros H0 Hlt Hmax.
  replace w' with (w + 1 + Z.of_nat (Z.to_nat (w' - w - 1))) by lia.
  apply conversions_chain; lia.
Qed.

Lemma conversions_ends :
  (double_value (temperature_of_word 0) == -45)%Q
  /\ (double_value (temperature_of_word 65535) == 130)%Q
  /\ (double_value (humidity_of_word 0) == 0)%Q
  /\ (double_value (humidity_of_word 65535) == 100)%Q.
Proof. repeat split; vm_compute; reflexivity. Qed.

(** X11. The conversions keep the order of the raw words and stay within
    the physical range: a larger word gives a strictly larger temperature and
    a strictly larger humidity, every temperature lies between -45 and 130
    and every humidity between 0 and 100. *)
Theorem conversions_increase_within_physical_range (w w' : Z) :
  0 <= w -> w < w' -> w' < 65536 ->
  exists t t' h h' : Q,
    Q_of_double (temperature_of_word w) = Some t
    /\ Q_of_double (temperature_of_word w') = Some t'
    /\ Q_of_double (humidity_of_word w) = Some h
    /\ Q_of_double (humidity_of_word w') = Some h'
    /\ (-45 <= t)%Q /\ (t < t')%Q /\ (t' <= 130)%Q
    /\ (0 <= h)%Q /\ (h < h')%Q /\ (h' <= 100)%Q.
Proof.
  intros H0 Hlt Hmax.
  destruct (conversions_within_tolerance w ltac:(lia)) as [Wt Wh].
  destruct (conversions_within_tolerance w' ltac:(lia)) as [Wt' Wh'].
  apply double_value_finite in Wt, Wh, Wt', Wh'.
  destruct (conversions_increase w w' H0 Hlt Hmax) as [It Ih].
  destruct conversions_ends as (T0 & T1 & Hu0 & Hu1).
  eexists _, _, _, _.
  split; [exact Wt |]. split; [exact Wt' |]. split; [exact Wh |]. split; [exact Wh' |].
  assert (Lt : (-45 <= double_value (temperature_of_word w))%Q
               /\ (0 <= double_value (humidity_of_word w))%Q).
  { destruct (Z.eq_dec w 0) as [-> | Hne].
    - rewrite T0, Hu0. split; apply Qle_refl.
    - destruct (conversions_increase 0 w ltac:(lia) ltac:(lia) ltac:(lia)) as [A B].
      rewrite T0 in A. rewrite Hu0 in B. split; now apply Qlt_le_weak. }
  assert (Ut : (double_value (temperature_of_word w') <= 130)%Q
               /\ (double_value (humidity_of_word w') <= 100)%Q).
  { destruct (Z.eq_dec w' 65535) as [-> | Hne].
    - rewrite T1, Hu1. split; apply Qle_refl.
    - destruct (conversions_increase w' 65535 ltac:(lia) ltac:(lia) ltac:(lia)) as [A B].
      rewrite T1 in A. rewrite Hu1 in B. split; now apply Qlt_le_weak. }
  tauto.
Qed.

Lemma conversions_increase_within_physical_range_witness :
  exists t t' h h' : Q,
    Q_of_double (temperature_of_word 0x6000) = Some t
    /\ Q_of_double (temperature_of_word 0x6001) = Some t'
    /\ Q_of_double (humidity_of_word 0x6000) = Some h
    /\ Q_of_double (humidity_of_word 0x6001) = Some h'
    /\ (-45 <= t)%Q /\ (t < t')%Q /\ (t' <= 130)%Q
    /\ (0 <= h)%Q /\ (h < h')%Q /\ (h' <= 100)%Q.
Proof.
  apply (conversions_increase_within_physical_range 0x6000 0x6001); lia.
Defined.
